(** * no-allocation-in-props: a shallow embedding of the rule and its properties

    The rule of [lib/rules/no-allocation-in-props.js] flags array and object
    literals that are handed to a component as a prop, directly or through a
    [const] binding of an enclosing block.  The rule is a set of four node
    handlers closed over two pieces of mutable state: the table
    [blockVariableNameSets] and the list of reports made through
    [context.report].  The handlers are embedded below as computations in a
    small state-and-exception monad; the traversal engine of the linter, which
    calls them, is represented by the sequence of nodes it dispatches. *)

From stdpp Require Import base option list gmap sets strings.

Open Scope string_scope.
Open Scope list_scope.
Set Warnings "-register-all,-clear-no-such-hyp".

(** ** Syntax trees, as far as the rule inspects them *)

(** Expression nodes.  The rule distinguishes conditional, array, object and
    identifier expressions and literals; [OtherExpression] stands for a node
    of any other type. *)
Inductive expr : Type :=
| Identifier (name : string)
| Literal
| ArrayExpression (elements : list expr)
| ObjectExpression (properties : list property)
| ConditionalExpression (test consequent alternate : expr)
| OtherExpression
with property : Type :=
| Property (key : string) (value : expr)
| SpreadElement (argument : expr).

(** [prop.value]: a spread element has no [value] field. *)
Definition prop_value (prop : property) : option expr :=
  match prop with
  | Property _ value => Some value
  | SpreadElement _ => None
  end.

(** [node.id] of a declarator is an identifier or a destructuring pattern;
    [node.id.name] is [undefined] (here [None]) for a pattern. *)
Inductive binding_id : Type :=
| BindingIdentifier (name : string)
| BindingPattern.

Definition id_name (id : binding_id) : option string :=
  match id with
  | BindingIdentifier name => Some name
  | BindingPattern => None
  end.

(** [node.parent.kind] of a declarator. *)
Inductive declaration_kind : Type := var_kind | let_kind | const_kind.

Global Instance declaration_kind_eq_dec : EqDecision declaration_kind.
Proof. solve_decision. Defined.

(** The opening element an attribute belongs to ([node.parent]). *)
Record JSXOpeningElement : Type := { elementName : string }.

(** [node.value] of an attribute, when it is not [null]. *)
Inductive attribute_value : Type :=
| JSXExpressionContainer (expression : expr)
| AttributeLiteral (raw : string)
| AttributeElement.

(** An ancestor as [context.getAncestors] returns it: the rule reads its
    [type] and [range[0]]. *)
Record ancestor : Type := { anc_type : string; anc_range0 : N }.

(** The fields of a visited node that depend on its type. *)
Inductive node_fields : Type :=
| BlockStatementFields
| VariableDeclaratorFields (id : binding_id) (init : option expr)
    (parent_kind : declaration_kind)
| JSXAttributeFields (parent : JSXOpeningElement) (value : option attribute_value)
| CallExpressionFields (arguments : list expr)
| OtherFields.

(** A node as the engine hands it to a handler: its fields, [range[0]] and
    the chain [context.getAncestors(node)], outermost first. *)
Record node : Type := {
  fields : node_fields;
  range0 : N;
  getAncestors : list ancestor
}.

(** ** Configuration, violation types and reports *)

Record config : Type := {
  allowArrays : bool;
  allowObjects : bool;
  ignoreDOMComponents : bool
}.

Inductive violation : Type := array | object.

Global Instance violation_eq_dec : EqDecision violation.
Proof. solve_decision. Defined.

Definition violationMessageStore (type : violation) : string :=
  match type with
  | array => "Props should not use array allocations"
  | object => "Props should not use object allocations"
  end.

(** The node a report is anchored at: a visited node or a property of a
    props object. *)
Inductive reported_node : Type :=
| AtNode (n : node)
| AtProperty (p : property).

Record report : Type := { report_node : reported_node; message : string }.

(** ** The state of one run of the rule *)

(** One entry of [blockVariableNameSets]: [{ array: Set, object: Set }].
    The sets hold values of [node.id.name]. *)
Record block_sets : Type := {
  array_set : gset (option string);
  object_set : gset (option string)
}.

Definition empty_sets : block_sets := {| array_set := ∅; object_set := ∅ |}.

(** [blockSets[type]] *)
Definition get_set (type : violation) (blockSets : block_sets) : gset (option string) :=
  match type with
  | array => array_set blockSets
  | object => object_set blockSets
  end.

(** [blockSets[type].add(variableName)] *)
Definition set_add (type : violation) (variableName : option string)
    (blockSets : block_sets) : block_sets :=
  match type with
  | array => {| array_set := {[variableName]} ∪ array_set blockSets;
                object_set := object_set blockSets |}
  | object => {| array_set := array_set blockSets;
                 object_set := {[variableName]} ∪ object_set blockSets |}
  end.

(** [Object.keys(blockSets)]: the keys in insertion order. *)
Definition Object_keys (blockSets : block_sets) : list violation := [array; object].

Record state : Type := {
  blockVariableNameSets : gmap N block_sets;
  reports : list report
}.

Definition initial_state : state :=
  {| blockVariableNameSets := ∅; reports := [] |}.

(** ** Computations: state and exceptions *)

Inductive error : Type := TypeError.

Inductive outcome (A : Type) : Type :=
| Return (a : A) (s : state)
| Throw (e : error).
Arguments Return {A} a s.
Arguments Throw {A} e.

Definition M (A : Type) : Type := state → outcome A.

Global Instance M_ret : MRet M := λ A a s, Return a s.
Global Instance M_bind : MBind M := λ A B f m s,
  match m s with
  | Return a s' => f a s'
  | Throw e => Throw e
  end.

Definition throw {A : Type} (e : error) : M A := λ _, Throw e.

(** [context.report({ node, message })] *)
Definition context_report (n : reported_node) (msg : string) : M unit := λ s,
  Return tt {| blockVariableNameSets := blockVariableNameSets s;
               reports := reports s ++ [{| report_node := n; message := msg |}] |}.

(** [Array.prototype.find] with a callback that has effects: the callback
    runs on the elements in order until it answers [true]. *)
Fixpoint array_find {A : Type} (callback : A → M bool) (l : list A) : M (option A) :=
  match l with
  | [] => mret None
  | x :: l' =>
      b ← callback x;
      if b : bool then mret (Some x) else array_find callback l'
  end.

(** [Array.prototype.forEach] *)
Fixpoint array_forEach {A : Type} (callback : A → M unit) (l : list A) : M unit :=
  match l with
  | [] => mret tt
  | x :: l' => callback x;; array_forEach callback l'
  end.

(** [a || b] on values that are a violation type or [null]. *)
Definition js_or (a b : option violation) : option violation :=
  match a with
  | Some _ => a
  | None => b
  end.

(** ** The rule *)

Section Rule.

(** [jsxUtil.isDOMComponent] and [isCreateElement] are utilities of the
    plugin that the rule only calls; [configuration] is
    [context.options[0] || {}]. *)
Variable isDOMComponent : JSXOpeningElement → bool.
Variable isCreateElement : node → bool.
Variable configuration : config.

Definition setBlockVariableNameSet (blockStart : N) : M unit := λ s,
  Return tt {| blockVariableNameSets := <[blockStart := empty_sets]> (blockVariableNameSets s);
               reports := reports s |}.

Fixpoint getNodeViolationType (node : expr) : option violation :=
  match node with
  | ConditionalExpression test consequent alternate =>
      js_or (js_or (getNodeViolationType test) (getNodeViolationType consequent))
            (getNodeViolationType alternate)
  | ArrayExpression _ =>
      if negb (allowArrays configuration) then Some array else None
  | ObjectExpression _ =>
      if negb (allowObjects configuration) then Some object else None
  | _ => None
  end.

(** [blockVariableNameSets[blockStart][violationType].add(variableName)];
    reading a field of [undefined] throws. *)
Definition addVariableNameToSet (violationType : violation)
    (variableName : option string) (blockStart : N) : M unit := λ s,
  match blockVariableNameSets s !! blockStart with
  | None => Throw TypeError
  | Some blockSets =>
      Return tt {| blockVariableNameSets :=
                     <[blockStart := set_add violationType variableName blockSets]>
                       (blockVariableNameSets s);
                   reports := reports s |}
  end.

Definition getBlockStatementAncestors (n : node) : list ancestor :=
  filter (λ ancestor, anc_type ancestor = "BlockStatement") (reverse (getAncestors n)).

(** [Object.keys(undefined)] throws. *)
Definition reportVariableViolation (n : node) (name : string) (blockStart : N)
    : M (option violation) := λ s,
  match blockVariableNameSets s !! blockStart with
  | None => Throw TypeError
  | Some blockSets =>
      array_find (λ type,
        if bool_decide (Some name ∈ get_set type blockSets)
        then context_report (AtNode n) (violationMessageStore type);; mret true
        else mret false) (Object_keys blockSets) s
  end.

Definition findVariableViolation (n : node) (name : string) : M unit :=
  array_find (λ block,
    found ← reportVariableViolation n name (anc_range0 block);
    mret (bool_decide (is_Some found))) (getBlockStatementAncestors n);;
  mret tt.

(** *** The handlers *)

Definition BlockStatement (n : node) : M unit :=
  setBlockVariableNameSet (range0 n).

Definition VariableDeclarator (n : node) (id : binding_id) (init : option expr)
    (parent_kind : declaration_kind) : M unit :=
  match init with
  | None => mret tt
  | Some init =>
      let blockAncestors := getBlockStatementAncestors n in
      let variableViolationType := getNodeViolationType init in
      match blockAncestors, variableViolationType with
      | block :: _, Some violationType =>
          if bool_decide (parent_kind = const_kind)
          then addVariableNameToSet violationType (id_name id) (anc_range0 block)
          else mret tt
      | _, _ => mret tt
      end
  end.

(** [node.value.expression] throws on a [null] value and is [undefined]
    on a value that is not an expression container; [valueNode.type]
    throws on [undefined]. *)
Definition value_expression (value : option attribute_value) : M (option expr) :=
  match value with
  | None => throw TypeError
  | Some (JSXExpressionContainer expression) => mret (Some expression)
  | Some _ => mret None
  end.

Definition JSXAttribute (n : node) (parent : JSXOpeningElement)
    (value : option attribute_value) : M unit :=
  let isDOM := isDOMComponent parent in
  if ignoreDOMComponents configuration && isDOM then mret tt
  else
    valueNode ← value_expression value;
    match valueNode with
    | None => throw TypeError
    | Some valueNode =>
        let nodeViolationType := getNodeViolationType valueNode in
        match valueNode with
        | Identifier name => findVariableViolation n name
        | _ =>
            match nodeViolationType with
            | Some type => context_report (AtNode n) (violationMessageStore type)
            | None => mret tt
            end
        end
    end.

(** The callback of [propsArg.properties.forEach]. *)
Definition checkProperty (n : node) (prop : property) : M unit :=
  match prop_value prop with
  | None => mret tt
  | Some value =>
      let nodeViolationType := getNodeViolationType value in
      match value with
      | Identifier name => findVariableViolation n name
      | _ =>
          match nodeViolationType with
          | Some type => context_report (AtProperty prop) (violationMessageStore type)
          | None => mret tt
          end
      end
  end.

Definition CallExpression (n : node) (arguments : list expr) : M unit :=
  if negb (isCreateElement n) || bool_decide (length arguments = 0%nat) then mret tt
  else
    match arguments with
    | [] => mret tt
    | first :: rest =>
        let isDOM := match first with Literal => true | _ => false end in
        if ignoreDOMComponents configuration && isDOM then mret tt
        else
          match rest with
          | ObjectExpression properties :: _ =>
              array_forEach (checkProperty n) properties
          | _ => mret tt
          end
    end.

(** *** The engine's side: one handler call per visited node *)

Definition dispatch (n : node) : M unit :=
  match fields n with
  | BlockStatementFields => BlockStatement n
  | VariableDeclaratorFields id init parent_kind =>
      VariableDeclarator n id init parent_kind
  | JSXAttributeFields parent value => JSXAttribute n parent value
  | CallExpressionFields arguments => CallExpression n arguments
  | OtherFields => mret tt
  end.

(** A run of the rule over the nodes of a file in the order the engine
    visits them. *)
Definition traverse (nodes : list node) : M unit := array_forEach dispatch nodes.

End Rule.

(** ** Reading the state *)

(** [member s blockStart type x]: [x] is in the [type] set of the record
    kept for [blockStart]. *)
Definition member (s : state) (blockStart : N) (type : violation)
    (x : option string) : Prop :=
  ∃ blockSets, blockVariableNameSets s !! blockStart = Some blockSets
               ∧ x ∈ get_set type blockSets.

(** What one record answers for [name]: [Object.keys] lists [array] first,
    so a name of both sets is reported as an array. *)
Definition block_violation (name : string) (blockSets : block_sets) : option violation :=
  if bool_decide (Some name ∈ array_set blockSets) then Some array
  else if bool_decide (Some name ∈ object_set blockSets) then Some object
  else None.

Definition add_report (n : reported_node) (type : violation) (s : state) : state :=
  {| blockVariableNameSets := blockVariableNameSets s;
     reports := reports s ++ [{| report_node := n; message := violationMessageStore type |}] |}.

(** The answer of a chain of blocks for [name], read off the table without
    running the handlers: the first record that has the name decides; a block
    without a record makes [Object.keys] throw. *)
Inductive resolution : Type :=
| Unresolved
| Resolved (type : violation)
| Unregistered.

Fixpoint resolve (sets : gmap N block_sets) (name : string) (chain : list ancestor)
    : resolution :=
  match chain with
  | [] => Unresolved
  | block :: chain' =>
      match sets !! anc_range0 block with
      | None => Unregistered
      | Some blockSets =>
          match block_violation name blockSets with
          | Some type => Resolved type
          | None => resolve sets name chain'
          end
      end
  end.

(** A sequence of calls of [addVariableNameToSet], each given by its
    violation type, variable name and block. *)
Definition recordings (ops : list (violation * option string * N)) : M unit :=
  array_forEach (λ op, addVariableNameToSet op.1.1 op.1.2 op.2) ops.

(** The reports a computation started in [s] has added, when it returned. *)
Definition emitted {A : Type} (o : outcome A) (s : state) : option (list report) :=
  match o with
  | Return _ s' => Some (drop (length (reports s)) (reports s'))
  | Throw _ => None
  end.

(** The resolution of one prop value in the words of the specification: a
    bare identifier is looked up in the blocks around [site] and a hit is
    reported at [site]; any other expression is classified directly and a
    violation is reported at [anchor]. *)
Definition spec_resolve_usage (configuration : config) (site : node)
    (anchor : reported_node) (value : expr) : M unit :=
  match value with
  | Identifier name => findVariableViolation site name
  | _ =>
      match getNodeViolationType configuration value with
      | Some type => context_report anchor (violationMessageStore type)
      | None => mret tt
      end
  end.

(** The number of usage sites a visited node brings: an attribute is one
    site; a call with a props object has one site for each property that
    has a value. *)
Definition usage_sites (n : node) : nat :=
  match fields n with
  | JSXAttributeFields _ _ => 1
  | CallExpressionFields (_ :: ObjectExpression properties :: _) =>
      length (omap prop_value properties)
  | _ => 0
  end.

(** [grows k s s']: [s'] has the table of [s] and at most [k] more reports. *)
Definition grows (k : nat) (s s' : state) : Prop :=
  blockVariableNameSets s' = blockVariableNameSets s
  ∧ ∃ added, reports s' = reports s ++ added ∧ (length added ≤ k)%nat.

(** ** Two runs that differ in one [allow] option *)

Definition other (type : violation) : violation :=
  match type with
  | array => object
  | object => array
  end.

(** The configuration with [allowArrays] (for [array]) or [allowObjects]
    (for [object]) set to [value]. *)
Definition set_allow (type : violation) (value : bool) (configuration : config) : config :=
  match type with
  | array => {| allowArrays := value;
                allowObjects := allowObjects configuration;
                ignoreDOMComponents := ignoreDOMComponents configuration |}
  | object => {| allowArrays := allowArrays configuration;
                 allowObjects := value;
                 ignoreDOMComponents := ignoreDOMComponents configuration |}
  end.

(** The reports that carry the message of [type]. *)
Definition reports_of (type : violation) (rs : list report) : list report :=
  filter (λ r, message r = violationMessageStore type) rs.

(** The contract of the engine: when a node is visited, the handler of every
    block statement around it has run.  [entered] holds the offsets of the
    blocks visited so far. *)
Fixpoint preorder (entered : gset N) (nodes : list node) : bool :=
  match nodes with
  | [] => true
  | n :: nodes' =>
      forallb (λ a, bool_decide (anc_range0 a ∈ entered)) (getBlockStatementAncestors n)
      && preorder (match fields n with
                   | BlockStatementFields => {[range0 n]} ∪ entered
                   | _ => entered
                   end) nodes'
  end.

(** The state reached by reporting [o], if it is a violation, at [anchor]. *)
Definition emit (anchor : reported_node) (o : option violation) (s : state) : state :=
  match o with
  | Some type => add_report anchor type s
  | None => s
  end.

(** Recording [x] under [o], if it is a violation, in [blockStart]. *)
Definition record_at (o : option violation) (x : option string) (blockStart : N)
    : M unit :=
  match o with
  | Some type => addVariableNameToSet type x blockStart
  | None => mret tt
  end.

(** How the answer [t] of the run that allows [type] relates to the answer
    [f] of the run that does not: [t] is never [type]; where [f] is none so
    is [t]; where [f] is the other type so is [t]. *)
Definition site_rel (type : violation) (f t : option violation) : Prop :=
  t ≠ Some type
  ∧ (f = None → t = None)
  ∧ (f = Some (other type) → t = Some (other type)).

Definition sets_rel (type : violation) (setsF setsT : block_sets) : Prop :=
  get_set type setsT = ∅
  ∧ get_set (other type) setsF ⊆ get_set (other type) setsT
  ∧ get_set (other type) setsT ⊆ get_set type setsF ∪ get_set (other type) setsF.

(** [is_literal_of type e]: [e] is an array literal (for [array]) or an
    object literal (for [object]). *)
Definition is_literal_of (type : violation) (e : expr) : bool :=
  match type, e with
  | array, ArrayExpression _ => true
  | object, ObjectExpression _ => true
  | _, _ => false
  end.

(** [replaced type rF rT]: the reports [rT] are the reports [rF], in their
    order, with every report of the other type kept as it is and every
    report of [type] either removed or replaced by a report of the other
    type at the same node. *)
Inductive replaced (type : violation) : list report → list report → Prop :=
| replaced_nil : replaced type [] []
| replaced_keep (r : report) (rF rT : list report) :
    message r = violationMessageStore (other type) →
    replaced type rF rT → replaced type (r :: rF) (r :: rT)
| replaced_drop (r : report) (rF rT : list report) :
    message r = violationMessageStore type →
    replaced type rF rT → replaced type (r :: rF) rT
| replaced_swap (r : report) (rF rT : list report) :
    message r = violationMessageStore type →
    replaced type rF rT →
    replaced type (r :: rF)
      ({| report_node := report_node r;
          message := violationMessageStore (other type) |} :: rT).

Definition reports_kept (type : violation) (rF rT : list report) : Prop :=
  reports_of type rT = []
  ∧ reports_of (other type) rF `sublist_of` reports_of (other type) rT.

Definition reports_rel (type : violation) (rF rT : list report) : Prop :=
  reports_kept type rF rT ∧ replaced type rF rT.

Definition state_rel (type : violation) (entered : gset N) (sF sT : state) : Prop :=
  (∀ b, b ∈ entered → is_Some (blockVariableNameSets sF !! b))
  ∧ (∀ b, option_Forall2 (sets_rel type)
            (blockVariableNameSets sF !! b) (blockVariableNameSets sT !! b))
  ∧ reports_rel type (reports sF) (reports sT).

(** Two runs end alike: both throw, or both return in related states. *)
Definition outcome_rel (P : state → state → Prop) (oF oT : outcome unit) : Prop :=
  match oF, oT with
  | Return _ sF, Return _ sT => P sF sT
  | Throw _, Throw _ => True
  | _, _ => False
  end.

(** [has_expression n]: if [n] is an attribute that the handler does not
    skip, its value is an expression container. *)
Definition has_expression (isDOMComponent : JSXOpeningElement → bool)
    (configuration : config) (n : node) : bool :=
  match fields n with
  | JSXAttributeFields parent value =>
      (ignoreDOMComponents configuration && isDOMComponent parent)
      || match value with
         | Some (JSXExpressionContainer _) => true
         | _ => false
         end
  | _ => true
  end.

(** ** Notions for the further properties *)

(** The operands of a conditional expression, with nested conditionals
    unfolded, in the order test, consequent, alternate; an expression that is
    not a conditional is its own operand. *)
Fixpoint operands (e : expr) : list expr :=
  match e with
  | ConditionalExpression test consequent alternate =>
      operands test ++ operands consequent ++ operands alternate
  | _ => [e]
  end.

(** The option of the configuration that allows a violation type. *)
Definition allows (configuration : config) (type : violation) : bool :=
  match type with
  | array => allowArrays configuration
  | object => allowObjects configuration
  end.

(** The configuration with [ignoreDOMComponents] set to [value]. *)
Definition set_ignore (value : bool) (configuration : config) : config :=
  {| allowArrays := allowArrays configuration;
     allowObjects := allowObjects configuration;
     ignoreDOMComponents := value |}.

(** The offsets of the block statements among the visited nodes. *)
Definition block_starts (nodes : list node) : gset N :=
  list_to_set (omap (λ n, match fields n with
                          | BlockStatementFields => Some (range0 n)
                          | _ => None
                          end) nodes).

(** [argument.type === 'Literal'] *)
Definition is_Literal (e : expr) : bool :=
  match e with
  | Literal => true
  | _ => false
  end.

(** [disallowed_only configuration s]: every name in the table sits in the
    set of a type the configuration does not allow, and every report carries
    the message of such a type. *)
Definition disallowed_only (configuration : config) (s : state) : Prop :=
  (∀ b t x, member s b t x → allows configuration t = false)
  ∧ (∀ r, r ∈ reports s →
       ∃ t, message r = violationMessageStore t ∧ allows configuration t = false).

(** [quieter sF sT]: [sT] has the table of [sF] and a part of its reports,
    in the same order. *)
Definition quieter (sF sT : state) : Prop :=
  blockVariableNameSets sT = blockVariableNameSets sF
  ∧ reports sT `sublist_of` reports sF.

(** ** What a usage site reports, read off the table *)




(** ** Sample inputs

    The nodes of
    [{ for (const a = []; ;) ; for (const a = {}; ;) ; <Foo bar={a} /> }],
    a block starting at offset 0, and instances of the two collaborators. *)
Module Sample.

Definition isDOMComponent (parent : JSXOpeningElement) : bool :=
  bool_decide (elementName parent = "div").

Definition isCreateElement (n : node) : bool := true.

Definition defaults : config :=
  {| allowArrays := false; allowObjects := false; ignoreDOMComponents := false |}.

Definition block (start : N) : ancestor :=
  {| anc_type := "BlockStatement"; anc_range0 := start |}.

Definition within (type : string) (start : N) : ancestor :=
  {| anc_type := type; anc_range0 := start |}.

Definition block_node (start : N) (ancestors : list ancestor) : node :=
  {| fields := BlockStatementFields; range0 := start; getAncestors := ancestors |}.

Definition const_node (start : N) (name : string) (init : expr)
    (ancestors : list ancestor) : node :=
  {| fields := VariableDeclaratorFields (BindingIdentifier name) (Some init) const_kind;
     range0 := start; getAncestors := ancestors |}.

Definition attribute_node (start : N) (tag : string) (value : option attribute_value)
    (ancestors : list ancestor) : node :=
  {| fields := JSXAttributeFields {| elementName := tag |} value;
     range0 := start; getAncestors := ancestors |}.

Definition call_node (start : N) (arguments : list expr)
    (ancestors : list ancestor) : node :=
  {| fields := CallExpressionFields arguments;
     range0 := start; getAncestors := ancestors |}.

Definition usage_of_a : node :=
  attribute_node 60 "Foo" (Some (JSXExpressionContainer (Identifier "a")))
    [within "Program" 0; block 0; within "ExpressionStatement" 50;
     within "JSXElement" 50; within "JSXOpeningElement" 50].

Definition redeclared : list node :=
  [ block_node 0 [within "Program" 0];
    const_node 13 "a" (ArrayExpression [])
      [within "Program" 0; block 0; within "ForStatement" 2;
       within "VariableDeclaration" 7];
    const_node 38 "a" (ObjectExpression [])
      [within "Program" 0; block 0; within "ForStatement" 27;
       within "VariableDeclaration" 32];
    usage_of_a ].

(** [{ const a = []; { const a = {}; <Foo bar={a} /> } }]: the inner block
    starts at offset 20. *)
Definition inner_usage : node :=
  attribute_node 50 "Foo" (Some (JSXExpressionContainer (Identifier "a")))
    [within "Program" 0; block 0; block 20; within "ExpressionStatement" 40;
     within "JSXElement" 40; within "JSXOpeningElement" 40].

Definition shadowed : list node :=
  [ block_node 0 [within "Program" 0];
    const_node 8 "a" (ArrayExpression [])
      [within "Program" 0; block 0; within "VariableDeclaration" 2];
    block_node 20 [within "Program" 0; block 0];
    const_node 28 "a" (ObjectExpression [])
      [within "Program" 0; block 0; block 20; within "VariableDeclaration" 22];
    inner_usage ].


(** A block at offset 0 that is entered a second time after [a] has been
    recorded in it. *)
Definition reentered : list node :=
  [ block_node 0 [within "Program" 0];
    const_node 8 "a" (ArrayExpression [])
      [within "Program" 0; block 0; within "VariableDeclaration" 2];
    block_node 0 [within "Program" 0];
    usage_of_a ].

(** The table once the block at offset 0 has been entered. *)
Definition entered : state :=
  {| blockVariableNameSets := {[0%N := empty_sets]}; reports := [] |}.

(** [<div hidden />] and [<Foo hidden />]: attributes without a value. *)
Definition div_hidden : node :=
  attribute_node 5 "div" None
    [within "Program" 0; within "ExpressionStatement" 0; within "JSXElement" 0;
     within "JSXOpeningElement" 0].

Definition ignoring : config :=
  {| allowArrays := false; allowObjects := false; ignoreDOMComponents := true |}.

(** [const a = []] in the block at offset 0. *)
Definition const_a : node :=
  const_node 8 "a" (ArrayExpression [])
    [within "Program" 0; block 0; within "VariableDeclaration" 2].




(** [{ { const a = []; } <Foo bar={a} /> }]: the declaration sits in the
    block at offset 2, which is not around the use of [a]. *)
Definition sibling_state : state :=
  {| blockVariableNameSets := <[2%N := empty_sets]> {[0%N := empty_sets]};
     reports := [] |}.

(** [<Foo bar={c ? [] : {}} />] inside the block at offset 0. *)
Definition ternary_usage : node :=
  attribute_node 12 "Foo"
    (Some (JSXExpressionContainer
             (ConditionalExpression OtherExpression (ArrayExpression [])
                (ObjectExpression []))))
    [within "Program" 0; block 0; within "ExpressionStatement" 2;
     within "JSXElement" 2; within "JSXOpeningElement" 2].

Definition ternary : list node := [block_node 0 [within "Program" 0]; ternary_usage].

(** [React.createElement(Foo, { bar: a })] in the block at offset 0. *)
Definition create_Foo_a : node :=
  call_node 30 [OtherExpression; ObjectExpression [Property "bar" (Identifier "a")]]
    [within "Program" 0; block 0; within "ReturnStatement" 23].

(** [const [a] = []] in the block at offset 0. *)
Definition const_pattern : node :=
  {| fields := VariableDeclaratorFields BindingPattern (Some (ArrayExpression []))
                 const_kind;
     range0 := 8;
     getAncestors := [within "Program" 0; block 0; within "VariableDeclaration" 2] |}.

(** The table once [const a = []] has been recorded in the block at offset 0,
    and the report of a use of [a] in [React.createElement(Foo, { bar: a })]. *)
Definition a_recorded : state :=
  {| blockVariableNameSets :=
       {[0%N := {| array_set := {[Some "a"]}; object_set := ∅ |}]};
     reports := [] |}.

Definition report_at_call : report :=
  {| report_node := AtNode create_Foo_a;
     message := "Props should not use array allocations" |}.

(** [{ const a = []; <div style={a} />; <Foo bar={a} /> }] *)
Definition div_usage_of_a : node :=
  attribute_node 30 "div" (Some (JSXExpressionContainer (Identifier "a")))
    [within "Program" 0; block 0; within "ExpressionStatement" 25;
     within "JSXElement" 25; within "JSXOpeningElement" 25].

Definition mixed : list node :=
  [block_node 0 [within "Program" 0]; const_a; div_usage_of_a; usage_of_a].


(** [{ <Foo a={[]} />; <Foo b={{}} />; <Foo bar={c ? [] : {}} /> }] *)
Definition array_usage : node :=
  attribute_node 40 "Foo" (Some (JSXExpressionContainer (ArrayExpression [])))
    [within "Program" 0; block 0; within "ExpressionStatement" 35;
     within "JSXElement" 35; within "JSXOpeningElement" 35].

Definition object_usage : node :=
  attribute_node 60 "Foo" (Some (JSXExpressionContainer (ObjectExpression [])))
    [within "Program" 0; block 0; within "ExpressionStatement" 55;
     within "JSXElement" 55; within "JSXOpeningElement" 55].

Definition contrast : list node :=
  [block_node 0 [within "Program" 0]; array_usage; object_usage; ternary_usage].

(** [const a = {}] in the block at offset 20, itself inside the block at
    offset 0, and the table once both blocks have been entered. *)
Definition const_inner : node :=
  const_node 28 "a" (ObjectExpression [])
    [within "Program" 0; block 0; block 20; within "VariableDeclaration" 22].

Definition both_entered : state :=
  {| blockVariableNameSets := <[20%N := empty_sets]> {[0%N := empty_sets]};
     reports := [] |}.

Definition run (configuration : config) (nodes : list node) : outcome unit :=
  traverse isDOMComponent isCreateElement configuration nodes initial_state.

End Sample.

(** * Properties *)

(** ** The classifier *)

Section Classifier.

Variable configuration : config.

Lemma js_or_None_r (a : option violation) : js_or a None = a.
Proof. by destruct a. Qed.

Lemma js_or_eq_None (a b : option violation) :
  js_or a b = None ↔ a = None ∧ b = None.
Proof. destruct a, b; simpl; split; (by intros [? ?]) || done. Qed.

(** The classifier never answers a type that the configuration allows. *)
Lemma getNodeViolationType_allowed (e : expr) (type : violation) :
  getNodeViolationType configuration e = Some type →
  match type with
  | array => allowArrays configuration = false
  | object => allowObjects configuration = false
  end.
Proof.
  revert type. induction e as [| | | |test IHt consequent IHc alternate IHa|];
    intros type; simpl; try done.
  - destruct (allowArrays configuration) eqn:E; simpl; [done|]. by intros [= <-].
  - destruct (allowObjects configuration) eqn:E; simpl; [done|]. by intros [= <-].
  - destruct (getNodeViolationType configuration test) as [t|]; simpl.
    { intros [= ->]. by apply IHt. }
    destruct (getNodeViolationType configuration consequent) as [t|]; simpl.
    { intros [= ->]. by apply IHc. }
    apply IHa.
Qed.

End Classifier.

(** C2.  The classifier is a function of the expression and the configuration
    alone.  On a conditional expression it answers the first result that is
    not none among those of the test, the consequent and the alternate, in
    that order; on an array literal it answers [array] exactly when
    [allowArrays] is false, on an object literal [object] exactly when
    [allowObjects] is false, and none on every other node: an identifier, a
    literal, or a node of any other type. *)
Theorem getNodeViolationType_classifies (configuration : config) :
  (∀ test consequent alternate,
      getNodeViolationType configuration (ConditionalExpression test consequent alternate)
      = head (omap (getNodeViolationType configuration) [test; consequent; alternate]))
  ∧ (∀ elements,
      (getNodeViolationType configuration (ArrayExpression elements) = Some array
         ↔ allowArrays configuration = false)
      ∧ (getNodeViolationType configuration (ArrayExpression elements) = None
         ↔ allowArrays configuration = true))
  ∧ (∀ properties,
      (getNodeViolationType configuration (ObjectExpression properties) = Some object
         ↔ allowObjects configuration = false)
      ∧ (getNodeViolationType configuration (ObjectExpression properties) = None
         ↔ allowObjects configuration = true))
  ∧ (∀ name, getNodeViolationType configuration (Identifier name) = None)
  ∧ getNodeViolationType configuration Literal = None
  ∧ getNodeViolationType configuration OtherExpression = None.
Proof.
  repeat split.
  - intros test consequent alternate. simpl.
    destruct (getNodeViolationType configuration test); simpl; [done|].
    destruct (getNodeViolationType configuration consequent); simpl; [done|].
    by destruct (getNodeViolationType configuration alternate).
  - simpl. by destruct (allowArrays configuration).
  - simpl. by intros ->.
  - simpl. by destruct (allowArrays configuration).
  - simpl. by intros ->.
  - simpl. by destruct (allowObjects configuration).
  - simpl. by intros ->.
  - simpl. by destruct (allowObjects configuration).
  - simpl. by intros ->.
Qed.

(** ** Resolution of an identifier *)

Section Resolution.

Variable n : node.
Variable name : string.

Lemma block_violation_None (blockSets : block_sets) :
  block_violation name blockSets = None
  ↔ (Some name ∉ array_set blockSets) ∧ (Some name ∉ object_set blockSets).
Proof.
  unfold block_violation. repeat case_bool_decide; split; try done; by intros [? ?].
Qed.

Lemma block_violation_Some (blockSets : block_sets) (type : violation) :
  block_violation name blockSets = Some type → Some name ∈ get_set type blockSets.
Proof.
  unfold block_violation. repeat case_bool_decide; by intros [= <-].
Qed.


Lemma reportVariableViolation_eq (blockStart : N) (s : state) :
  reportVariableViolation n name blockStart s
  = match blockVariableNameSets s !! blockStart with
    | None => Throw TypeError
    | Some blockSets =>
        match block_violation name blockSets with
        | Some type => Return (Some type) (add_report (AtNode n) type s)
        | None => Return None s
        end
    end.
Proof.
  unfold reportVariableViolation, block_violation.
  destruct (blockVariableNameSets s !! blockStart) as [blockSets|]; [|done].
  unfold Object_keys. simpl. unfold mbind, M_bind, mret, M_ret. simpl.
  by repeat case_bool_decide.
Qed.

Lemma findVariableViolation_walk (chain : list ancestor) (s : state) :
  (array_find (λ block,
     found ← reportVariableViolation n name (anc_range0 block);
     mret (bool_decide (is_Some found))) chain;; mret tt) s
  = match resolve (blockVariableNameSets s) name chain with
    | Unresolved => Return tt s
    | Resolved type => Return tt (add_report (AtNode n) type s)
    | Unregistered => Throw TypeError
    end.
Proof.
  induction chain as [|block chain IH]; [done|].
  simpl. unfold mbind, M_bind in *. rewrite reportVariableViolation_eq.
  destruct (blockVariableNameSets s !! anc_range0 block) as [blockSets|]; [|done].
  destruct (block_violation name blockSets) as [type|]; [done|]. apply IH.
Qed.

Lemma findVariableViolation_eq (s : state) :
  findVariableViolation n name s
  = match resolve (blockVariableNameSets s) name (getBlockStatementAncestors n) with
    | Unresolved => Return tt s
    | Resolved type => Return tt (add_report (AtNode n) type s)
    | Unregistered => Throw TypeError
    end.
Proof. apply findVariableViolation_walk. Qed.


End Resolution.



(** ** The table of block records *)

Section Registry.

Lemma get_set_set_add (type type' : violation) (x x' : option string)
    (blockSets : block_sets) :
  x' ∈ get_set type' (set_add type x blockSets)
  ↔ x' ∈ get_set type' blockSets ∨ (type' = type ∧ x' = x).
Proof.
  destruct type, type'; simpl; set_solver.
Qed.

Lemma addVariableNameToSet_member (type : violation) (x : option string)
    (blockStart : N) (s : state) :
  is_Some (blockVariableNameSets s !! blockStart) →
  ∃ s', addVariableNameToSet type x blockStart s = Return tt s'
        ∧ reports s' = reports s
        ∧ (∀ b, is_Some (blockVariableNameSets s' !! b)
                ↔ is_Some (blockVariableNameSets s !! b))
        ∧ (∀ b t y, member s' b t y
                    ↔ member s b t y ∨ (t = type ∧ y = x ∧ b = blockStart)).
Proof.
  intros [blockSets Hb]. unfold addVariableNameToSet. rewrite Hb.
  eexists. split; [done|]. split; [done|]. simpl. split.
  - intros b. destruct (decide (b = blockStart)) as [->|Hne].
    + rewrite lookup_insert_eq, Hb. split; eauto.
    + by rewrite lookup_insert_ne.
  - intros b t y. unfold member. simpl.
    destruct (decide (b = blockStart)) as [->|Hne].
    + rewrite lookup_insert_eq, Hb. split.
      * intros (sets' & [= <-] & Hy). apply get_set_set_add in Hy as [Hy|[-> ->]].
        -- left. eauto.
        -- by right.
      * intros [(sets' & [= <-] & Hy)|(-> & -> & _)].
        -- eexists. split; [done|]. apply get_set_set_add. by left.
        -- eexists. split; [done|]. apply get_set_set_add. by right.
    + rewrite lookup_insert_ne by done. split.
      * intros H. by left.
      * intros [H|(_ & _ & ->)]; done.
Qed.

Lemma addVariableNameToSet_unregistered (type : violation) (x : option string)
    (blockStart : N) (s : state) :
  blockVariableNameSets s !! blockStart = None →
  addVariableNameToSet type x blockStart s = Throw TypeError.
Proof. intros Hb. unfold addVariableNameToSet. by rewrite Hb. Qed.

End Registry.

(** C3, as the code has it.  Recording adds the name to the set of the given
    type and touches nothing else: after any sequence of recordings in blocks
    that have a record, a name is in a set of a block exactly when it was
    there before or was recorded in that block under that type.  No
    membership is ever removed, so a name recorded under both types in one
    block is in both of its sets. *)
Theorem recordings_accumulate (ops : list (violation * option string * N)) (s : state) :
  (∀ op, op ∈ ops → is_Some (blockVariableNameSets s !! op.2)) →
  ∃ s', recordings ops s = Return tt s'
        ∧ reports s' = reports s
        ∧ (∀ b t x, member s' b t x ↔ member s b t x ∨ (t, x, b) ∈ ops).
Proof.
  revert s. induction ops as [|[[type y] blockStart] ops IH]; intros s Hreg.
  - exists s. split; [done|]. split; [done|]. intros b t x. split.
    + intros H. by left.
    + intros [H|H]; [done|]. by apply elem_of_nil in H.
  - destruct (addVariableNameToSet_member type y blockStart s)
      as (s1 & Hs1 & Hr1 & Hdom1 & Hm1).
    { apply (Hreg (type, y, blockStart)). by left. }
    destruct (IH s1) as (s' & Hs' & Hr' & Hm').
    { intros op Hop. apply Hdom1, Hreg. by right. }
    exists s'. split; [|split].
    + unfold recordings in *. simpl. unfold mbind, M_bind. simpl.
      by rewrite Hs1.
    + congruence.
    + intros b t x. rewrite Hm', Hm1, elem_of_cons. split.
      * intros [[H|(-> & -> & ->)]|H]; auto.
      * intros [H|[[= -> -> ->]|H]]; auto.
Qed.

Lemma recordings_accumulate_witness :
  ∃ s', recordings [(array, Some "a", 0%N); (object, Some "a", 0%N)] Sample.entered
        = Return tt s'
        ∧ member s' 0 array (Some "a") ∧ member s' 0 object (Some "a").
Proof.
  destruct (recordings_accumulate
              [(array, Some "a", 0%N); (object, Some "a", 0%N)] Sample.entered)
    as (s' & Hs' & _ & Hm).
  - intros op Hop. apply list_elem_of_In in Hop. simpl in Hop.
    destruct Hop as [<-|[<-|[]]]; by eexists.
  - exists s'. split; [done|]. split; apply Hm; right.
    + by left.
    + right. by left.
Defined.

(** The claim of C3 fails on
    [{ for (const a = []; ;) ; for (const a = {}; ;) ; <Foo bar={a} /> }]:
    both declarators are recorded in the block at offset 0, [a] ends up in
    both sets, and the later use is reported as an array although the object
    was recorded last. *)
Lemma redeclared_name_in_both_sets :
  ∃ s, Sample.run Sample.defaults Sample.redeclared = Return tt s
       ∧ member s 0 array (Some "a")
       ∧ member s 0 object (Some "a")
       ∧ reports s = [ {| report_node := AtNode Sample.usage_of_a;
                          message := "Props should not use array allocations" |} ].
Proof.
  eexists. split; [vm_compute; reflexivity|].
  split; [|split]; [| |reflexivity].
  - eexists. split; [reflexivity|]. by apply (bool_decide_unpack _).
  - eexists. split; [reflexivity|]. by apply (bool_decide_unpack _).
Qed.

(** C4, as the code has it.  Entering a block never fails: the handler
    installs an empty record under the block's offset whether or not one is
    there already, so a second entry drops what the first record held; other
    records and the reports are left alone. *)
Theorem BlockStatement_replaces_record (n : node) (s : state) :
  ∃ s', BlockStatement n s = Return tt s'
        ∧ blockVariableNameSets s' !! range0 n = Some empty_sets
        ∧ (∀ t x, ¬ member s' (range0 n) t x)
        ∧ (∀ b, b ≠ range0 n →
             blockVariableNameSets s' !! b = blockVariableNameSets s !! b)
        ∧ reports s' = reports s.
Proof.
  eexists. split; [reflexivity|]. simpl. repeat split.
  - apply lookup_insert_eq.
  - intros t x (blockSets & Hb & Hx). simpl in Hb. rewrite lookup_insert_eq in Hb.
    injection Hb as <-. destruct t; simpl in Hx; set_solver.
  - intros b Hne. by rewrite lookup_insert_ne.
Qed.

(** The claim of C4 fails when the block at offset 0 is entered, [a] is
    recorded in it and the block is entered again: the run returns, the
    record is empty again and the use of [a] is not reported. *)
Lemma reentered_block_is_reset :
  Sample.run Sample.defaults Sample.reentered
  = Return tt {| blockVariableNameSets := {[0%N := empty_sets]}; reports := [] |}.
Proof. vm_compute. reflexivity. Qed.

(** ** Recording a declarator *)

(** The case of a handler that returns in the state it was called in. *)
Local Ltac unchanged s :=
  exists s; split; [done|]; split; [done|]; split; [done|];
  intros b t x; split; [by left|intros [H|H]; [done|]].

(** What the declarator handler does to the table, in a state where the
    first block of its chain has a record. *)
Lemma VariableDeclarator_members (configuration : config) (n : node)
    (id : binding_id) (init : option expr) (parent_kind : declaration_kind) (s : state) :
  (∀ block, head (getBlockStatementAncestors n) = Some block →
            is_Some (blockVariableNameSets s !! anc_range0 block)) →
  ∃ s', VariableDeclarator configuration n id init parent_kind s = Return tt s'
        ∧ reports s' = reports s
        ∧ (∀ b, is_Some (blockVariableNameSets s' !! b)
                ↔ is_Some (blockVariableNameSets s !! b))
        ∧ (∀ b t x,
             member s' b t x
             ↔ member s b t x
               ∨ ∃ e block,
                   init = Some e
                   ∧ head (getBlockStatementAncestors n) = Some block
                   ∧ parent_kind = const_kind
                   ∧ getNodeViolationType configuration e = Some t
                   ∧ b = anc_range0 block
                   ∧ x = id_name id).
Proof.
  intros Hreg. unfold VariableDeclarator.
  destruct init as [e|]; [|unchanged s; by destruct H as (e & block & [=] & _)].
  destruct (getBlockStatementAncestors n) as [|block chain] eqn:Hchain;
    [unchanged s; by destruct H as (e' & block & _ & [=] & _)|].
  destruct (getNodeViolationType configuration e) as [type|] eqn:Htype;
    [|unchanged s; destruct H as (e' & block' & [= <-] & _ & _ & Hn & _);
      congruence].
  case_bool_decide as Hkind;
    [|unchanged s; by destruct H as (e' & block' & _ & _ & Hc & _)].
  destruct (addVariableNameToSet_member type (id_name id) (anc_range0 block) s)
    as (s' & Hs' & Hr & Hdom & Hm).
  { by apply Hreg. }
  exists s'. repeat split; try done; try apply Hdom.
  - intros H. apply Hm in H as [H|(-> & -> & ->)]; [by left|].
    right. by exists e, block.
  - intros [H|(e' & block' & [= <-] & [= <-] & _ & Ht & -> & ->)]; apply Hm.
    + by left.
    + right. split; [congruence|done].
Qed.

(** The first block of the chain is the innermost ancestor that is a block
    statement: the last such entry of [context.getAncestors(node)]. *)
Lemma head_filter_decompose {A : Type} (P : A → Prop) `{!∀ x, Decision (P x)}
    (l : list A) (x : A) :
  head (filter P l) = Some x
  ↔ ∃ before after, l = before ++ x :: after ∧ P x ∧ Forall (λ y, ¬ P y) before.
Proof.
  induction l as [|y l IH].
  - split; [done|]. intros (before & after & Hnil & _). by destruct before.
  - rewrite filter_cons. destruct (decide (P y)) as [Hy|Hy]; simpl.
    + split.
      * intros [= ->]. exists [], l. by repeat split.
      * intros (before & after & Hl & Hx & Hbefore).
        destruct before as [|z before]; simplify_eq/=; [done|].
        by apply Forall_cons_1 in Hbefore as [? _].
    + rewrite IH. split.
      * intros (before & after & -> & Hx & Hbefore).
        exists (y :: before), after. split; [done|]. split; [done|].
        by constructor.
      * intros (before & after & Hl & Hx & Hbefore).
        destruct before as [|z before]; simplify_eq/=; [done|].
        apply Forall_cons_1 in Hbefore as [_ Hbefore]. by exists before, after.
Qed.

Lemma nearest_block (n : node) (block : ancestor) :
  head (getBlockStatementAncestors n) = Some block
  ↔ ∃ outer inner,
      getAncestors n = outer ++ block :: inner
      ∧ anc_type block = "BlockStatement"
      ∧ Forall (λ a, anc_type a ≠ "BlockStatement") inner.
Proof.
  unfold getBlockStatementAncestors. rewrite head_filter_decompose. split.
  - intros (before & after & Hrev & Hblock & Hbefore).
    exists (reverse after), (reverse before). split; [|split; [done|]].
    + rewrite <- (reverse_involutive (getAncestors n)), Hrev.
      by rewrite reverse_app, reverse_cons, <- app_assoc.
    + by apply Forall_reverse.
  - intros (outer & inner & Hchain & Hblock & Hinner).
    exists (reverse inner), (reverse outer). split; [|split; [done|]].
    + by rewrite Hchain, reverse_app, reverse_cons, <- app_assoc.
    + by apply Forall_reverse.
Qed.

(** C5, as the code has it.  In a state where the block statements around
    the declarator have records, the handler returns without reporting and
    keeps the set of blocks that have a record.  It records the name of the
    declarator exactly when the declarator has an initializer, has a block
    statement among its ancestors, belongs to a [const] declaration, gets a
    type from the classifier for its initializer, and its target is a plain
    identifier: that name then joins the set of that type in the innermost
    block statement among the ancestors.  When the target is a destructuring
    pattern the same conditions make it record [undefined] there and no
    name. *)
Theorem VariableDeclarator_records_identifiers (configuration : config) (n : node)
    (id : binding_id) (init : option expr) (parent_kind : declaration_kind) (s : state) :
  (∀ a, a ∈ getAncestors n → anc_type a = "BlockStatement" →
        is_Some (blockVariableNameSets s !! anc_range0 a)) →
  ∃ s', VariableDeclarator configuration n id init parent_kind s = Return tt s'
        ∧ reports s' = reports s
        ∧ (∀ b, is_Some (blockVariableNameSets s' !! b)
                ↔ is_Some (blockVariableNameSets s !! b))
        ∧ (∀ b t y,
             member s' b t (Some y)
             ↔ member s b t (Some y)
               ∨ ∃ e outer block inner,
                   init = Some e
                   ∧ getAncestors n = outer ++ block :: inner
                   ∧ anc_type block = "BlockStatement"
                   ∧ Forall (λ a, anc_type a ≠ "BlockStatement") inner
                   ∧ parent_kind = const_kind
                   ∧ getNodeViolationType configuration e = Some t
                   ∧ id = BindingIdentifier y
                   ∧ b = anc_range0 block)
        ∧ (∀ b t,
             member s' b t None
             ↔ member s b t None
               ∨ ∃ e outer block inner,
                   init = Some e
                   ∧ getAncestors n = outer ++ block :: inner
                   ∧ anc_type block = "BlockStatement"
                   ∧ Forall (λ a, anc_type a ≠ "BlockStatement") inner
                   ∧ parent_kind = const_kind
                   ∧ getNodeViolationType configuration e = Some t
                   ∧ id = BindingPattern
                   ∧ b = anc_range0 block).
Proof.
  intros Hreg.
  destruct (VariableDeclarator_members configuration n id init parent_kind s)
    as (s' & Hs' & Hr & Hdom & Hm).
  { intros block Hhead. apply nearest_block in Hhead
      as (outer & inner & Hchain & Hblock & _).
    apply Hreg; [|done]. rewrite Hchain. apply elem_of_app. right. by left. }
  exists s'. split; [done|]. split; [done|]. split; [done|].
  assert (Hx : ∀ b t x,
    member s' b t x
    ↔ member s b t x
      ∨ ∃ e outer block inner,
          init = Some e
          ∧ getAncestors n = outer ++ block :: inner
          ∧ anc_type block = "BlockStatement"
          ∧ Forall (λ a, anc_type a ≠ "BlockStatement") inner
          ∧ parent_kind = const_kind
          ∧ getNodeViolationType configuration e = Some t
          ∧ id_name id = x
          ∧ b = anc_range0 block).
  { intros b t x. rewrite Hm. split.
    - intros [H|(e & block & -> & Hhead & -> & Ht & -> & ->)]; [by left|].
      apply nearest_block in Hhead as (outer & inner & Hchain & Hblock & Hinner).
      right. by exists e, outer, block, inner.
    - intros [H|(e & outer & block & inner & -> & Hchain & Hblock & Hinner
                 & -> & Ht & <- & ->)]; [by left|].
      right. exists e, block. repeat split; try done.
      apply nearest_block. by exists outer, inner. }
  split.
  - intros b t y. rewrite Hx. split.
    + intros [H|(e & outer & block & inner & ? & ? & ? & ? & ? & ? & Hid & ?)];
        [by left|].
      right. exists e, outer, block, inner. repeat split; try done.
      by destruct id; simplify_eq/=.
    + intros [H|(e & outer & block & inner & ? & ? & ? & ? & ? & ? & -> & ?)];
        [by left|].
      right. by exists e, outer, block, inner.
  - intros b t. rewrite Hx. split.
    + intros [H|(e & outer & block & inner & ? & ? & ? & ? & ? & ? & Hid & ?)];
        [by left|].
      right. exists e, outer, block, inner. repeat split; try done.
      by destruct id; simplify_eq/=.
    + intros [H|(e & outer & block & inner & ? & ? & ? & ? & ? & ? & -> & ?)];
        [by left|].
      right. by exists e, outer, block, inner.
Qed.

Lemma VariableDeclarator_records_identifiers_witness :
  ∃ s', VariableDeclarator Sample.defaults Sample.const_inner
          (BindingIdentifier "a") (Some (ObjectExpression [])) const_kind
          Sample.both_entered
        = Return tt s'
        ∧ reports s' = []
        ∧ member s' 20 object (Some "a")
        ∧ ¬ member s' 0 object (Some "a").
Proof.
  destruct (VariableDeclarator_records_identifiers Sample.defaults Sample.const_inner
              (BindingIdentifier "a") (Some (ObjectExpression [])) const_kind
              Sample.both_entered) as (s' & Hs' & Hr & _ & Hm & _).
  - intros a Ha Hblock. apply list_elem_of_In in Ha. simpl in Ha.
    destruct Ha as [<-|[<-|[<-|[<-|[]]]]]; first [done|by eexists].
  - exists s'. split; [done|]. split; [done|]. split.
    + apply Hm. right.
      exists (ObjectExpression []), [Sample.within "Program" 0; Sample.block 0],
             (Sample.block 20), [Sample.within "VariableDeclaration" 22].
      repeat split; try done. repeat constructor. done.
    + intros [(blockSets & Hb & Hx)|(e & outer & block & inner & _ & Hchain & Hblock
                                    & Hinner & _ & _ & _ & Hb)]%Hm.
      * injection Hb as <-. by apply not_elem_of_empty in Hx.
      * destruct outer as [|a1 [|a2 [|a3 [|a4 outer]]]]; simplify_eq/=.
        -- by apply Forall_cons_1 in Hinner as [? _].
        -- by destruct outer.
Defined.

(** The claim of C5 fails on [const [a] = []] in a block: the declarator has
    an initializer, a block around it, a [const] declaration and an
    initializer that is classified as an array, yet the handler records no
    name, only [undefined]. *)
Lemma pattern_declarator_records_no_name :
  ∃ s', VariableDeclarator Sample.defaults Sample.const_pattern BindingPattern
          (Some (ArrayExpression [])) const_kind Sample.entered = Return tt s'
        ∧ getNodeViolationType Sample.defaults (ArrayExpression []) = Some array
        ∧ head (getBlockStatementAncestors Sample.const_pattern)
          = Some (Sample.block 0)
        ∧ (∀ b t y, ¬ member s' b t (Some y))
        ∧ member s' 0 array None.
Proof.
  eexists. split; [reflexivity|]. split; [reflexivity|]. split; [reflexivity|].
  split.
  - intros b t y (blockSets & Hb & Hy). simpl in Hb.
    destruct (decide (b = 0%N)) as [->|Hne].
    + rewrite lookup_insert_eq in Hb. injection Hb as <-.
      destruct t; simpl in Hy; set_solver.
    + rewrite lookup_insert_ne in Hb by done.
      apply lookup_singleton_Some in Hb as [? _]. congruence.
  - eexists. split; [reflexivity|]. by apply (bool_decide_unpack _).
Qed.

(** ** Usage sites *)

Section Usage.

Variable isDOMComponent : JSXOpeningElement → bool.
Variable isCreateElement : node → bool.
Variable configuration : config.


Lemma JSXAttribute_resolves (n : node) (parent : JSXOpeningElement) (e : expr) :
  ignoreDOMComponents configuration && isDOMComponent parent = false →
  JSXAttribute isDOMComponent configuration n parent (Some (JSXExpressionContainer e))
  = spec_resolve_usage configuration n (AtNode n) e.
Proof. intros Hskip. unfold JSXAttribute. rewrite Hskip. by destruct e. Qed.

Lemma checkProperty_resolves (n : node) (key : string) (e : expr) :
  checkProperty configuration n (Property key e)
  = spec_resolve_usage configuration n (AtProperty (Property key e)) e.
Proof. by destruct e. Qed.

End Usage.

Section UsageReports.

Variable isDOMComponent : JSXOpeningElement → bool.
Variable isCreateElement : node → bool.
Variable configuration : config.





End UsageReports.



(** C10, as the code has it.  The attribute handler applies the
    [ignoreDOMComponents] check first and reads [node.value.expression] only
    afterwards: on an attribute whose value is missing or is not an
    expression container it throws a type error exactly when the attribute
    is not skipped by that check, and returns in the same state when it is.
    On an attribute with an expression value it returns whenever every block
    around the attribute has a record. *)
Theorem JSXAttribute_needs_expression
    (isDOMComponent : JSXOpeningElement → bool) (configuration : config)
    (n : node) (parent : JSXOpeningElement) (s : state) :
  (∀ value,
      (∀ e, value ≠ Some (JSXExpressionContainer e)) →
      JSXAttribute isDOMComponent configuration n parent value s
      = if ignoreDOMComponents configuration && isDOMComponent parent
        then Return tt s else Throw TypeError)
  ∧ (∀ e,
      (∀ a, a ∈ getBlockStatementAncestors n →
            is_Some (blockVariableNameSets s !! anc_range0 a)) →
      ∃ s', JSXAttribute isDOMComponent configuration n parent
              (Some (JSXExpressionContainer e)) s = Return tt s').
Proof.
  split.
  - intros value Hvalue. unfold JSXAttribute.
    destruct (ignoreDOMComponents configuration && isDOMComponent parent); [done|].
    destruct value as [[e| |]|]; try done. by destruct (Hvalue e).
  - intros e Hreg. unfold JSXAttribute.
    destruct (ignoreDOMComponents configuration && isDOMComponent parent);
      [by eexists|].
    unfold mbind, M_bind. simpl.
    assert (Hfind : ∀ name, ∃ s', findVariableViolation n name s = Return tt s').
    { intros name. rewrite findVariableViolation_eq.
      induction (getBlockStatementAncestors n) as [|a chain IH]; [by eexists|].
      simpl. destruct (Hreg a) as [blockSets ->]; [by left|].
      destruct (block_violation name blockSets); [by eexists|].
      apply IH. intros a' Ha'. apply Hreg. by right. }
    destruct e; try (by eexists); try apply Hfind;
      by destruct (getNodeViolationType configuration _); eexists.
Qed.

Lemma JSXAttribute_needs_expression_witness :
  JSXAttribute Sample.isDOMComponent Sample.defaults Sample.div_hidden
    {| elementName := "div" |} None initial_state
  = Throw TypeError
  ∧ JSXAttribute Sample.isDOMComponent Sample.defaults Sample.div_hidden
      {| elementName := "div" |} (Some (AttributeLiteral "x")) initial_state
    = Throw TypeError.
Proof.
  split.
  - by apply (proj1 (JSXAttribute_needs_expression Sample.isDOMComponent
                       Sample.defaults Sample.div_hidden {| elementName := "div" |}
                       initial_state) None).
  - by apply (proj1 (JSXAttribute_needs_expression Sample.isDOMComponent
                       Sample.defaults Sample.div_hidden {| elementName := "div" |}
                       initial_state) (Some (AttributeLiteral "x"))).
Defined.

(** The claim of C10 fails on [<div hidden />] under
    [ignoreDOMComponents]: the element is recognised and the option is set,
    so the handler returns before it reads the missing value, and no error
    is thrown. *)
Lemma skipped_attribute_without_value_returns :
  JSXAttribute Sample.isDOMComponent Sample.ignoring Sample.div_hidden
    {| elementName := "div" |} None initial_state
  = Return tt initial_state
  ∧ dispatch Sample.isDOMComponent Sample.isCreateElement Sample.ignoring
      Sample.div_hidden initial_state
    = Return tt initial_state.
Proof. split; reflexivity. Qed.

(** ** What a lookup can see *)

Section Locality.

Variable n : node.
Variable name : string.

Lemma resolve_ext (sets1 sets2 : gmap N block_sets) (chain : list ancestor) :
  (∀ a, a ∈ chain → sets1 !! anc_range0 a = sets2 !! anc_range0 a) →
  resolve sets1 name chain = resolve sets2 name chain.
Proof.
  induction chain as [|a chain IH]; intros Hagree; [done|].
  simpl. rewrite (Hagree a) by by left.
  destruct (sets2 !! anc_range0 a) as [blockSets|]; [|done].
  destruct (block_violation name blockSets); [done|].
  apply IH. intros a' Ha'. apply Hagree. by right.
Qed.

Lemma emitted_same {A : Type} (a : A) (s : state) : emitted (Return a s) s = Some [].
Proof. simpl. by rewrite drop_all. Qed.

Lemma emitted_add_report {A : Type} (a : A) (anchor : reported_node)
    (type : violation) (s : state) :
  emitted (Return a (add_report anchor type s)) s
  = Some [{| report_node := anchor; message := violationMessageStore type |}].
Proof. simpl. by rewrite drop_app_length. Qed.

Lemma emitted_findVariableViolation (s : state) :
  emitted (findVariableViolation n name s) s
  = match resolve (blockVariableNameSets s) name (getBlockStatementAncestors n) with
    | Unresolved => Some []
    | Resolved type =>
        Some [{| report_node := AtNode n; message := violationMessageStore type |}]
    | Unregistered => None
    end.
Proof.
  rewrite findVariableViolation_eq.
  destruct (resolve _ _ _); [apply emitted_same|apply emitted_add_report|done].
Qed.

End Locality.

(** C8.  The blocks a lookup consults are the ancestors of the node that are
    block statements, and no others: two states that agree on the records of
    these blocks give the same reports, so a binding recorded in any block
    that is not around the usage site, such as a sibling or a descendant
    block, does not change what the lookup reports, whatever its name. *)
Theorem findVariableViolation_ancestors_only (n : node) (name : string) :
  (∀ a, a ∈ getBlockStatementAncestors n
        ↔ a ∈ getAncestors n ∧ anc_type a = "BlockStatement")
  ∧ (∀ s1 s2,
      (∀ a, a ∈ getBlockStatementAncestors n →
            blockVariableNameSets s1 !! anc_range0 a
            = blockVariableNameSets s2 !! anc_range0 a) →
      emitted (findVariableViolation n name s1) s1
      = emitted (findVariableViolation n name s2) s2)
  ∧ (∀ type x blockStart s s',
      blockStart ∉ anc_range0 <$> getBlockStatementAncestors n →
      addVariableNameToSet type x blockStart s = Return tt s' →
      emitted (findVariableViolation n name s') s'
      = emitted (findVariableViolation n name s) s).
Proof.
  split; [|split].
  - intros a. unfold getBlockStatementAncestors.
    rewrite list_elem_of_filter, elem_of_reverse. split; intros [? ?]; done.
  - intros s1 s2 Hagree. rewrite !emitted_findVariableViolation.
    by rewrite (resolve_ext name _ _ _ Hagree).
  - intros type x blockStart s s' Hout Hadd.
    rewrite !emitted_findVariableViolation.
    unfold addVariableNameToSet in Hadd.
    destruct (blockVariableNameSets s !! blockStart) as [blockSets|]; [|done].
    injection Hadd as <-. simpl.
    rewrite (resolve_ext name _ (blockVariableNameSets s)); [done|].
    intros a Ha. apply lookup_insert_ne. intros ->. apply Hout.
    by apply list_elem_of_fmap_2.
Qed.

Lemma findVariableViolation_ancestors_only_witness :
  ∃ s', addVariableNameToSet array (Some "a") 2 Sample.sibling_state = Return tt s'
        ∧ member s' 2 array (Some "a")
        ∧ emitted (findVariableViolation Sample.usage_of_a "a" s') s' = Some [].
Proof.
  eexists. split; [reflexivity|]. split.
  - eexists. split; [reflexivity|]. by apply (bool_decide_unpack _).
  - rewrite (proj2 (proj2 (findVariableViolation_ancestors_only Sample.usage_of_a "a"))
               array (Some "a") 2%N Sample.sibling_state).
    + reflexivity.
    + by apply (bool_decide_unpack _).
    + reflexivity.
Defined.

(** ** One report for a usage site *)

Section Once.

Variable isDOMComponent : JSXOpeningElement → bool.
Variable isCreateElement : node → bool.
Variable configuration : config.

Lemma grows_refl (k : nat) (s : state) : grows k s s.
Proof. split; [done|]. exists []. rewrite app_nil_r. split; [done|simpl; lia]. Qed.

Lemma grows_add_report (k : nat) (anchor : reported_node) (type : violation) (s : state) :
  grows (S k) s (add_report anchor type s).
Proof. split; [done|]. eexists. split; [done|]. simpl. lia. Qed.

Lemma grows_trans (j k : nat) (s1 s2 s3 : state) :
  grows j s1 s2 → grows k s2 s3 → grows (j + k) s1 s3.
Proof.
  intros [Ht1 (a1 & Hr1 & Hl1)] [Ht2 (a2 & Hr2 & Hl2)]. split; [congruence|].
  exists (a1 ++ a2). rewrite Hr2, Hr1, <- app_assoc, length_app. split; [done|lia].
Qed.

Lemma findVariableViolation_grows (n : node) (name : string) (s s' : state) :
  findVariableViolation n name s = Return tt s' → grows 1 s s'.
Proof.
  rewrite findVariableViolation_eq.
  destruct (resolve _ _ _); intros [= <-];
    [apply grows_refl|apply grows_add_report].
Qed.

Lemma spec_resolve_usage_grows (site : node) (anchor : reported_node) (e : expr)
    (s s' : state) :
  spec_resolve_usage configuration site anchor e s = Return tt s' → grows 1 s s'.
Proof.
  assert (Hdirect : ∀ o : option violation,
    match o with
    | Some type => context_report anchor (violationMessageStore type)
    | None => mret tt
    end s = Return tt s' → grows 1 s s').
  { intros [type|] [= <-]; [apply (grows_add_report 0 anchor type)|apply grows_refl]. }
  destruct e; simpl; try apply Hdirect; try apply (Hdirect None).
  apply findVariableViolation_grows.
Qed.

Lemma JSXAttribute_grows (n : node) (parent : JSXOpeningElement)
    (value : option attribute_value) (s s' : state) :
  JSXAttribute isDOMComponent configuration n parent value s = Return tt s' →
  grows 1 s s'.
Proof.
  destruct (ignoreDOMComponents configuration && isDOMComponent parent) eqn:Hskip.
  - unfold JSXAttribute. rewrite Hskip. intros [= <-]. apply grows_refl.
  - destruct value as [[e| |]|].
    + rewrite JSXAttribute_resolves by done. apply spec_resolve_usage_grows.
    + unfold JSXAttribute. by rewrite Hskip.
    + unfold JSXAttribute. by rewrite Hskip.
    + unfold JSXAttribute. by rewrite Hskip.
Qed.

Lemma forEach_checkProperty_grows (n : node) (properties : list property)
    (s s' : state) :
  array_forEach (checkProperty configuration n) properties s = Return tt s' →
  grows (length (omap prop_value properties)) s s'.
Proof.
  revert s. induction properties as [|prop properties IH]; intros s.
  - intros [= <-]. apply grows_refl.
  - simpl. unfold mbind, M_bind.
    destruct (checkProperty configuration n prop s) as [[] s1|] eqn:H1; [|done].
    intros H2. apply IH in H2. destruct prop as [key e|argument]; simpl.
    + rewrite checkProperty_resolves in H1. apply spec_resolve_usage_grows in H1.
      apply (grows_trans 1 _ s s1 s' H1 H2).
    + by injection H1 as <-.
Qed.

Lemma CallExpression_grows (n : node) (arguments : list expr) (s s' : state) :
  fields n = CallExpressionFields arguments →
  CallExpression isCreateElement configuration n arguments s = Return tt s' →
  grows (usage_sites n) s s'.
Proof.
  intros Hfields. unfold usage_sites. rewrite Hfields. unfold CallExpression.
  assert (Hrefl : ∀ k, @mret M _ _ tt s = Return tt s' → grows k s s').
  { intros k [= <-]. apply grows_refl. }
  destruct (negb (isCreateElement n) || bool_decide (length arguments = 0%nat));
    [apply Hrefl|].
  destruct arguments as [|first rest]; [apply Hrefl|].
  destruct (ignoreDOMComponents configuration && _); [apply Hrefl|].
  destruct rest as [|[] rest]; try apply Hrefl.
  apply forEach_checkProperty_grows.
Qed.

End Once.

Section Run.

Variable isDOMComponent : JSXOpeningElement → bool.
Variable isCreateElement : node → bool.
Variable configuration : config.

Lemma VariableDeclarator_record_at (cfg : config) (n : node) (id : binding_id)
    (init : option expr) (parent_kind : declaration_kind) (s : state) :
  VariableDeclarator cfg n id init parent_kind s
  = match init, head (getBlockStatementAncestors n) with
    | Some e, Some block =>
        if bool_decide (parent_kind = const_kind)
        then record_at (getNodeViolationType cfg e) (id_name id) (anc_range0 block) s
        else Return tt s
    | _, _ => Return tt s
    end.
Proof.
  unfold VariableDeclarator. destruct init as [e|]; [|done].
  destruct (getBlockStatementAncestors n) as [|block chain]; [done|]. simpl.
  destruct (getNodeViolationType cfg e); by case_bool_decide.
Qed.

Lemma VariableDeclarator_reports (n : node) (id : binding_id) (init : option expr)
    (parent_kind : declaration_kind) (s s' : state) :
  VariableDeclarator configuration n id init parent_kind s = Return tt s' →
  reports s' = reports s.
Proof.
  unfold VariableDeclarator.
  assert (Hrefl : @mret M _ _ tt s = Return tt s' → reports s' = reports s)
    by by intros [= <-].
  destruct init as [e|]; [|done].
  destruct (getBlockStatementAncestors n) as [|block chain]; [done|].
  destruct (getNodeViolationType configuration e) as [type|]; [|done].
  case_bool_decide; [|done]. unfold addVariableNameToSet.
  destruct (blockVariableNameSets s !! anc_range0 block); [|done].
  by intros [= <-].
Qed.

Lemma dispatch_reports (n : node) (s s' : state) :
  dispatch isDOMComponent isCreateElement configuration n s = Return tt s' →
  ∃ added, reports s' = reports s ++ added ∧ (length added ≤ usage_sites n)%nat.
Proof.
  unfold dispatch. destruct (fields n) as [|id init parent_kind|parent value|arguments|] eqn:Hfields.
  - intros [= <-]. exists []. rewrite app_nil_r. split; [done|simpl; lia].
  - intros H. apply VariableDeclarator_reports in H. exists [].
    rewrite app_nil_r. split; [done|simpl; lia].
  - intros H. apply JSXAttribute_grows in H as [_ H].
    unfold usage_sites. by rewrite Hfields.
  - intros H. by apply CallExpression_grows in H as [_ H].
  - intros [= <-]. exists []. rewrite app_nil_r. split; [done|simpl; lia].
Qed.

Lemma traverse_reports (nodes : list node) (s s' : state) :
  traverse isDOMComponent isCreateElement configuration nodes s = Return tt s' →
  ∃ added, reports s' = reports s ++ added
           ∧ (length added ≤ sum_list (usage_sites <$> nodes))%nat.
Proof.
  revert s. induction nodes as [|n nodes IH]; intros s.
  - intros [= <-]. exists []. rewrite app_nil_r. split; [done|simpl; lia].
  - unfold traverse in *. simpl. unfold mbind, M_bind.
    destruct (dispatch _ _ _ n s) as [[] s1|] eqn:H1; [|done].
    intros H2. apply dispatch_reports in H1 as (a1 & Hr1 & Hl1).
    apply IH in H2 as (a2 & Hr2 & Hl2).
    exists (a1 ++ a2). rewrite Hr2, Hr1, <- app_assoc, length_app.
    split; [done|]. by apply Nat.add_le_mono.
Qed.

End Run.

(** C9.  Each usage site is handled by one call: of the attribute handler
    for an attribute, of the property callback for a property of a props
    object.  Such a call, when it returns, leaves the table alone and adds
    at most one report, on the identifier path (where the walk stops at the
    first block and the first type that has the name) as on the direct one.
    Hence a run adds no more reports than the nodes it visits have usage
    sites. *)
Theorem one_report_per_usage_site
    (isDOMComponent : JSXOpeningElement → bool) (isCreateElement : node → bool)
    (configuration : config) :
  (∀ n name s s',
      findVariableViolation n name s = Return tt s' → grows 1 s s')
  ∧ (∀ n parent value s s',
      JSXAttribute isDOMComponent configuration n parent value s = Return tt s' →
      grows 1 s s')
  ∧ (∀ n key value s s',
      checkProperty configuration n (Property key value) s = Return tt s' →
      grows 1 s s')
  ∧ (∀ nodes s s',
      traverse isDOMComponent isCreateElement configuration nodes s = Return tt s' →
      ∃ added, reports s' = reports s ++ added
               ∧ (length added ≤ sum_list (usage_sites <$> nodes))%nat).
Proof.
  split; [|split; [|split]].
  - apply findVariableViolation_grows.
  - apply JSXAttribute_grows.
  - intros n key value s s'. rewrite checkProperty_resolves.
    apply spec_resolve_usage_grows.
  - apply traverse_reports.
Qed.

Lemma one_report_per_usage_site_witness :
  ∃ s' added,
    Sample.run Sample.defaults Sample.redeclared = Return tt s'
    ∧ reports s' = [] ++ added ∧ (length added ≤ 1)%nat.
Proof.
  destruct (Sample.run Sample.defaults Sample.redeclared) as [[] s'|] eqn:Hrun;
    [|by vm_compute in Hrun].
  destruct (proj2 (proj2 (proj2 (one_report_per_usage_site
              Sample.isDOMComponent Sample.isCreateElement Sample.defaults)))
              Sample.redeclared initial_state s' Hrun) as (added & Hr & Hl).
  by exists s', added.
Defined.

(** ** Runs that return *)

Section Returns.

Variable isDOMComponent : JSXOpeningElement → bool.
Variable isCreateElement : node → bool.
Variable configuration : config.

Lemma findVariableViolation_returns (n : node) (name : string) (s : state) :
  (∀ a, a ∈ getBlockStatementAncestors n →
        is_Some (blockVariableNameSets s !! anc_range0 a)) →
  ∃ s', findVariableViolation n name s = Return tt s'.
Proof.
  intros Hreg. rewrite findVariableViolation_eq.
  induction (getBlockStatementAncestors n) as [|a chain IH]; [by eexists|].
  simpl. destruct (Hreg a) as [blockSets ->]; [by left|].
  destruct (block_violation name blockSets); [by eexists|].
  apply IH. intros a' Ha'. apply Hreg. by right.
Qed.

Lemma spec_resolve_usage_returns (site : node) (anchor : reported_node) (e : expr)
    (s : state) :
  (∀ a, a ∈ getBlockStatementAncestors site →
        is_Some (blockVariableNameSets s !! anc_range0 a)) →
  ∃ s', spec_resolve_usage configuration site anchor e s = Return tt s'.
Proof.
  intros Hreg.
  destruct e; simpl; try (by eexists);
    try (by destruct (allowArrays configuration); eexists);
    try (by destruct (allowObjects configuration); eexists).
  - by apply findVariableViolation_returns.
  - destruct (js_or _ _); by eexists.
Qed.

Lemma forEach_checkProperty_returns (n : node) (properties : list property)
    (s : state) :
  (∀ a, a ∈ getBlockStatementAncestors n →
        is_Some (blockVariableNameSets s !! anc_range0 a)) →
  ∃ s', array_forEach (checkProperty configuration n) properties s = Return tt s'.
Proof.
  revert s. induction properties as [|prop properties IH]; intros s Hreg;
    [by eexists|].
  simpl. unfold mbind, M_bind.
  assert (∃ s1, checkProperty configuration n prop s = Return tt s1
                ∧ blockVariableNameSets s1 = blockVariableNameSets s)
    as (s1 & -> & Htable).
  { destruct prop as [key e|argument]; [|by eexists].
    rewrite checkProperty_resolves.
    destruct (spec_resolve_usage_returns n (AtProperty (Property key e)) e s Hreg)
      as [s1 Hs1].
    exists s1. split; [done|]. by apply spec_resolve_usage_grows in Hs1 as [? _]. }
  apply IH. by rewrite Htable.
Qed.

Lemma dispatch_returns (entered : gset N) (n : node) (s : state) :
  has_expression isDOMComponent configuration n = true →
  (∀ a, a ∈ getBlockStatementAncestors n → anc_range0 a ∈ entered) →
  (∀ b, b ∈ entered → is_Some (blockVariableNameSets s !! b)) →
  ∃ s', dispatch isDOMComponent isCreateElement configuration n s = Return tt s'
        ∧ (∀ b, b ∈ match fields n with
                    | BlockStatementFields => {[range0 n]} ∪ entered
                    | _ => entered
                    end → is_Some (blockVariableNameSets s' !! b)).
Proof.
  intros Hvalue Hin Hreg.
  assert (Hchain : ∀ a, a ∈ getBlockStatementAncestors n →
                        is_Some (blockVariableNameSets s !! anc_range0 a))
    by (intros a Ha; by apply Hreg, Hin).
  unfold dispatch, has_expression in *.
  destruct (fields n) as [|id init parent_kind|parent value|arguments|].
  - eexists. split; [done|]. simpl. intros b Hb.
    destruct (decide (b = range0 n)) as [->|Hne].
    + rewrite lookup_insert_eq. by eexists.
    + rewrite lookup_insert_ne by done. apply Hreg. set_solver.
  - rewrite VariableDeclarator_record_at. destruct init as [e|]; [|by eexists].
    destruct (getBlockStatementAncestors n) as [|block chain]; [by eexists|].
    simpl. case_bool_decide; [|by eexists].
    destruct (getNodeViolationType configuration e) as [type|]; [|by eexists].
    destruct (addVariableNameToSet_member type (id_name id) (anc_range0 block) s)
      as (s' & Hs' & _ & Hdom & _); [apply Hchain; by left|].
    exists s'. split; [done|]. intros b Hb. by apply Hdom, Hreg.
  - destruct (ignoreDOMComponents configuration && isDOMComponent parent) eqn:Hskip.
    + unfold JSXAttribute. rewrite Hskip. by eexists.
    + destruct value as [[e| |]|]; try done.
      rewrite JSXAttribute_resolves by done.
      destruct (spec_resolve_usage_returns n (AtNode n) e s Hchain) as [s' Hs'].
      exists s'. split; [done|].
      apply spec_resolve_usage_grows in Hs' as [-> _]. done.
  - unfold CallExpression.
    destruct (negb (isCreateElement n) || bool_decide (length arguments = 0%nat));
      [by eexists|].
    destruct arguments as [|first rest]; [by eexists|].
    destruct (ignoreDOMComponents configuration && _); [by eexists|].
    destruct rest as [|[] rest]; try (by eexists).
    destruct (forEach_checkProperty_returns n properties s Hchain) as [s' Hs'].
    exists s'. split; [done|].
    apply forEach_checkProperty_grows in Hs' as [-> _]. done.
  - by eexists.
Qed.

(** A run in which every node is visited after the blocks around it, and
    in which no attribute without an expression value is reached, returns. *)
Lemma traverse_returns (nodes : list node) (entered : gset N) (s : state) :
  preorder entered nodes = true →
  forallb (has_expression isDOMComponent configuration) nodes = true →
  (∀ b, b ∈ entered → is_Some (blockVariableNameSets s !! b)) →
  ∃ s', traverse isDOMComponent isCreateElement configuration nodes s = Return tt s'.
Proof.
  revert entered s. induction nodes as [|n nodes IH]; intros entered s;
    [by eexists|].
  simpl. intros [Hin Hrest]%andb_true_iff [Hvalue Hvalues]%andb_true_iff Hreg.
  assert (Hin' : ∀ a, a ∈ getBlockStatementAncestors n → anc_range0 a ∈ entered).
  { intros a Ha. rewrite forallb_forall in Hin.
    apply list_elem_of_In, Hin in Ha. by apply bool_decide_eq_true_1 in Ha. }
  destruct (dispatch_returns entered n s Hvalue Hin' Hreg) as (s1 & Hs1 & Hreg1).
  unfold traverse in *. simpl. unfold mbind, M_bind. rewrite Hs1.
  by eapply IH.
Qed.

End Returns.

(** ** The two [allow] options *)

Section Allow.

Variable type : violation.

Lemma message_other : violationMessageStore (other type) ≠ violationMessageStore type.
Proof. by destruct type. Qed.

Lemma site_rel_None : site_rel type None None.
Proof. by repeat split. Qed.

Lemma site_rel_js_or (f1 t1 f2 t2 : option violation) :
  site_rel type f1 t1 → site_rel type f2 t2 →
  site_rel type (js_or f1 f2) (js_or t1 t2).
Proof.
  unfold site_rel.
  destruct f1 as [[]|], t1 as [[]|], f2 as [[]|], t2 as [[]|], type; simpl;
    naive_solver.
Qed.

Lemma getNodeViolationType_rel (configuration : config) (e : expr) :
  site_rel type (getNodeViolationType (set_allow type false configuration) e)
                (getNodeViolationType (set_allow type true configuration) e).
Proof.
  induction e as [| | | |test IHt consequent IHc alternate IHa|];
    try apply site_rel_None.
  - destruct type; simpl; [by repeat split|].
    destruct (allowArrays configuration); simpl; by repeat split.
  - destruct type; simpl; [|by repeat split].
    destruct (allowObjects configuration); simpl; by repeat split.
  - simpl. by repeat apply site_rel_js_or.
Qed.

Lemma ignoreDOMComponents_set_allow (value : bool) (configuration : config) :
  ignoreDOMComponents (set_allow type value configuration)
  = ignoreDOMComponents configuration.
Proof. by destruct type. Qed.

Lemma block_violation_rel (name : string) (setsF setsT : block_sets) :
  sets_rel type setsF setsT →
  site_rel type (block_violation name setsF) (block_violation name setsT).
Proof.
  intros (Hempty & Hsub & Hsup). unfold block_violation, site_rel.
  destruct type; simpl in *; repeat case_bool_decide; repeat split;
    try done; set_solver.
Qed.

Lemma sets_rel_empty : sets_rel type empty_sets empty_sets.
Proof. unfold sets_rel. destruct type; simpl; set_solver. Qed.

Lemma sets_rel_record (f t : option violation) (x : option string)
    (setsF setsT : block_sets) :
  sets_rel type setsF setsT → site_rel type f t →
  sets_rel type
    (match f with Some k => set_add k x setsF | None => setsF end)
    (match t with Some k => set_add k x setsT | None => setsT end).
Proof.
  intros (Hempty & Hsub & Hsup) (Hn & Hz & Ho). unfold sets_rel.
  destruct f as [kf|], t as [kt|];
    try (specialize (Hz eq_refl); discriminate); [| |done].
  - destruct type, kf, kt; simpl in *; try done;
      try (specialize (Ho eq_refl); discriminate); set_solver.
  - destruct type, kf; simpl in *; try done;
      try (specialize (Ho eq_refl); discriminate); set_solver.
Qed.

Lemma reports_of_app (k : violation) (r1 r2 : list report) :
  reports_of k (r1 ++ r2) = reports_of k r1 ++ reports_of k r2.
Proof. apply filter_app. Qed.

Lemma reports_of_one (k j : violation) (anchor : reported_node) :
  reports_of k [{| report_node := anchor; message := violationMessageStore j |}]
  = if decide (j = k)
    then [{| report_node := anchor; message := violationMessageStore j |}] else [].
Proof.
  unfold reports_of. rewrite filter_cons, filter_nil. simpl.
  destruct (decide (j = k)) as [->|Hne].
  - by rewrite decide_True.
  - rewrite decide_False; [done|]. by destruct j, k.
Qed.

Lemma reports_kept_emit (anchor : reported_node) (f t : option violation)
    (sF sT : state) :
  site_rel type f t →
  reports_kept type (reports sF) (reports sT) →
  reports_kept type (reports (emit anchor f sF)) (reports (emit anchor t sT)).
Proof.
  intros (Hn & Hz & Ho) (Hnone & Hsub). unfold reports_kept.
  destruct f as [kf|], t as [kt|]; simpl;
    try (specialize (Hz eq_refl); discriminate); [| |done];
    rewrite !reports_of_app, !reports_of_one.
  - assert (kt = other type) as -> by (by destruct type, kt).
    rewrite (decide_False (P := other type = type)) by by destruct type.
    rewrite (decide_True (P := other type = other type)) by done.
    rewrite Hnone. split; [done|].
    destruct (decide (kf = other type)) as [->|Hne].
    + by apply sublist_app.
    + rewrite app_nil_r. by apply sublist_inserts_r.
  - assert (kf = type) as ->.
    { destruct (decide (kf = other type)) as [->|Hne].
      - by specialize (Ho eq_refl).
      - by destruct type, kf. }
    rewrite (decide_False (P := type = other type)) by by destruct type.
    by rewrite app_nil_r.
Qed.

Lemma replaced_app (rF rT rF' rT' : list report) :
  replaced type rF rT → replaced type rF' rT' →
  replaced type (rF ++ rF') (rT ++ rT').
Proof.
  intros H H'. induction H; simpl; [done| | |]; by constructor.
Qed.

Lemma replaced_emit (anchor : reported_node) (f t : option violation)
    (sF sT : state) :
  site_rel type f t →
  replaced type (reports sF) (reports sT) →
  replaced type (reports (emit anchor f sF)) (reports (emit anchor t sT)).
Proof.
  intros (Hn & Hz & Ho) Hrep.
  destruct f as [kf|], t as [kt|]; simpl;
    try (specialize (Hz eq_refl); discriminate); [| |done].
  - apply replaced_app; [done|].
    assert (kt = other type) as -> by (by destruct type, kt).
    destruct (decide (kf = other type)) as [->|Hne].
    + apply replaced_keep; [done|constructor].
    + assert (kf = type) as -> by (by destruct type, kf).
      apply (replaced_swap type
               {| report_node := anchor; message := violationMessageStore type |});
        [done|constructor].
  - rewrite <- (app_nil_r (reports sT)). apply replaced_app; [done|].
    assert (kf = type) as ->.
    { destruct (decide (kf = other type)) as [->|Hne].
      - by specialize (Ho eq_refl).
      - by destruct type, kf. }
    apply replaced_drop; [done|constructor].
Qed.

Lemma reports_rel_emit (anchor : reported_node) (f t : option violation)
    (sF sT : state) :
  site_rel type f t →
  reports_rel type (reports sF) (reports sT) →
  reports_rel type (reports (emit anchor f sF)) (reports (emit anchor t sT)).
Proof.
  intros Hsite [Hkept Hrep]. split;
    [by apply reports_kept_emit|by apply replaced_emit].
Qed.

(** With the type allowed, the classifier answers the other type exactly
    when that type is not allowed and one of the operands is a literal of
    it. *)
Lemma getNodeViolationType_allowing (configuration : config) (e : expr) :
  getNodeViolationType (set_allow type true configuration) e
  = if negb (allows configuration (other type))
       && existsb (is_literal_of (other type)) (operands e)
    then Some (other type) else None.
Proof.
  induction e as [| | | |test IHt consequent IHc alternate IHa|].
  - destruct type; simpl; by rewrite !andb_false_r.
  - destruct type; simpl; by rewrite !andb_false_r.
  - destruct type; simpl; [by rewrite !andb_false_r|].
    by destruct (allowArrays configuration).
  - destruct type; simpl; [|by rewrite !andb_false_r].
    by destruct (allowObjects configuration).
  - simpl getNodeViolationType. simpl operands.
    rewrite IHt, IHc, IHa, !existsb_app.
    destruct (negb (allows configuration (other type))); simpl; [|done].
    destruct (existsb _ (operands test)); [done|].
    by destruct (existsb _ (operands consequent)).
  - destruct type; simpl; by rewrite !andb_false_r.
Qed.

Lemma sets_rel_members (sF sT : state) :
  (∀ b, option_Forall2 (sets_rel type)
          (blockVariableNameSets sF !! b) (blockVariableNameSets sT !! b)) →
  (∀ b x, ¬ member sT b type x)
  ∧ (∀ b x, member sF b (other type) x → member sT b (other type) x)
  ∧ (∀ b x, member sT b (other type) x →
            member sF b type x ∨ member sF b (other type) x).
Proof.
  intros Htable. split; [|split]; intros b x (blockSets & Hb & Hx);
    specialize (Htable b).
  - destruct (blockVariableNameSets sF !! b) as [setsF|] eqn:HF;
      rewrite Hb in Htable; inversion Htable as [? ? (Hempty & _ & _)|]; subst.
    rewrite Hempty in Hx. by apply not_elem_of_empty in Hx.
  - destruct (blockVariableNameSets sT !! b) as [setsT|] eqn:HT;
      rewrite Hb in Htable; inversion Htable as [? ? (_ & Hsub & _)|]; subst.
    exists setsT. split; [done|]. by apply Hsub.
  - destruct (blockVariableNameSets sF !! b) as [setsF|] eqn:HF;
      rewrite Hb in Htable; inversion Htable as [? ? (_ & _ & Hsup)|]; subst.
    apply Hsup, elem_of_union in Hx as [Hx|Hx]; [left|right]; by exists setsF.
Qed.

End Allow.

Section TwoRuns.

Variable isDOMComponent : JSXOpeningElement → bool.
Variable isCreateElement : node → bool.
Variable configuration : config.
Variable type : violation.

Local Abbreviation forbidding := (set_allow type false configuration).
Local Abbreviation allowing := (set_allow type true configuration).

Lemma report_or_not (anchor : reported_node) (o : option violation) (s : state) :
  match o with
  | Some k => context_report anchor (violationMessageStore k)
  | None => mret tt
  end s = Return tt (emit anchor o s).
Proof. by destruct o. Qed.

Lemma state_rel_emit (entered : gset N) (anchor : reported_node)
    (f t : option violation) (sF sT : state) :
  state_rel type entered sF sT → site_rel type f t →
  state_rel type entered (emit anchor f sF) (emit anchor t sT).
Proof.
  intros (Hreg & Htable & Hreports) Hsite. split; [|split].
  - by destruct f.
  - by destruct f, t.
  - by apply reports_rel_emit.
Qed.

Lemma resolve_rel (name : string) (chain : list ancestor) (entered : gset N)
    (sF sT : state) :
  state_rel type entered sF sT →
  (∀ a, a ∈ chain → anc_range0 a ∈ entered) →
  ∃ f t,
    resolve (blockVariableNameSets sF) name chain
    = match f with Some k => Resolved k | None => Unresolved end
    ∧ resolve (blockVariableNameSets sT) name chain
      = match t with Some k => Resolved k | None => Unresolved end
    ∧ site_rel type f t.
Proof.
  intros (Hreg & Htable & _). induction chain as [|a chain IH]; intros Hin.
  - exists None, None. repeat split; try done.
  - destruct IH as (f & t & HF & HT & Hsite).
    { intros a' Ha'. apply Hin. by right. }
    simpl. destruct (Hreg (anc_range0 a)) as [setsF HsF]; [apply Hin; by left|].
    pose proof (Htable (anc_range0 a)) as Hb. rewrite HsF in *.
    destruct (blockVariableNameSets sT !! anc_range0 a) as [setsT|] eqn:HsT;
      [|by inversion Hb].
    assert (Hsets : sets_rel type setsF setsT) by by inversion Hb.
    pose proof (block_violation_rel type name setsF setsT Hsets) as Hblock.
    exists (js_or (block_violation name setsF) f),
           (js_or (block_violation name setsT) t).
    split; [|split].
    + destruct (block_violation name setsF); [done|]. by rewrite HF.
    + destruct (block_violation name setsT); [done|]. by rewrite HT.
    + by apply site_rel_js_or.
Qed.

Lemma spec_resolve_usage_rel (entered : gset N) (site : node)
    (anchor : reported_node) (e : expr) (sF sT : state) :
  state_rel type entered sF sT →
  (∀ a, a ∈ getBlockStatementAncestors site → anc_range0 a ∈ entered) →
  outcome_rel (state_rel type entered)
    (spec_resolve_usage forbidding site anchor e sF)
    (spec_resolve_usage allowing site anchor e sT).
Proof.
  intros Hrel Hin.
  assert (Hdirect : ∀ e', outcome_rel (state_rel type entered)
            (Return tt (emit anchor (getNodeViolationType forbidding e') sF))
            (Return tt (emit anchor (getNodeViolationType allowing e') sT))).
  { intros e'. simpl. apply state_rel_emit; [done|].
    apply getNodeViolationType_rel. }
  destruct e; unfold spec_resolve_usage; rewrite ?report_or_not; try apply Hdirect.
  rewrite !findVariableViolation_eq.
  destruct (resolve_rel name _ entered sF sT Hrel Hin) as (f & t & -> & -> & Hsite).
  pose proof (state_rel_emit entered (AtNode site) f t sF sT Hrel Hsite).
  by destruct f, t.
Qed.

Lemma JSXAttribute_rel (entered : gset N) (n : node) (parent : JSXOpeningElement)
    (value : option attribute_value) (sF sT : state) :
  state_rel type entered sF sT →
  (∀ a, a ∈ getBlockStatementAncestors n → anc_range0 a ∈ entered) →
  outcome_rel (state_rel type entered)
    (JSXAttribute isDOMComponent forbidding n parent value sF)
    (JSXAttribute isDOMComponent allowing n parent value sT).
Proof.
  intros Hrel Hin.
  destruct (ignoreDOMComponents configuration && isDOMComponent parent) eqn:Hskip.
  - unfold JSXAttribute. by rewrite !ignoreDOMComponents_set_allow, Hskip.
  - destruct value as [[e| |]|].
    + rewrite !JSXAttribute_resolves
        by by rewrite ignoreDOMComponents_set_allow.
      by apply spec_resolve_usage_rel.
    + unfold JSXAttribute. by rewrite !ignoreDOMComponents_set_allow, Hskip.
    + unfold JSXAttribute. by rewrite !ignoreDOMComponents_set_allow, Hskip.
    + unfold JSXAttribute. by rewrite !ignoreDOMComponents_set_allow, Hskip.
Qed.

Lemma array_forEach_rel {A : Type} (P : state → state → Prop)
    (gF gT : A → M unit) (l : list A) (sF sT : state) :
  (∀ x sF sT, P sF sT → outcome_rel P (gF x sF) (gT x sT)) →
  P sF sT → outcome_rel P (array_forEach gF l sF) (array_forEach gT l sT).
Proof.
  intros Hstep. revert sF sT. induction l as [|x l IH]; intros sF sT HP; [done|].
  simpl. unfold mbind, M_bind. specialize (Hstep x sF sT HP).
  destruct (gF x sF) as [[] sF'|], (gT x sT) as [[] sT'|]; try done.
  by apply IH.
Qed.

Lemma checkProperty_rel (entered : gset N) (n : node) (prop : property)
    (sF sT : state) :
  state_rel type entered sF sT →
  (∀ a, a ∈ getBlockStatementAncestors n → anc_range0 a ∈ entered) →
  outcome_rel (state_rel type entered)
    (checkProperty forbidding n prop sF) (checkProperty allowing n prop sT).
Proof.
  intros Hrel Hin. destruct prop as [key e|argument]; [|done].
  rewrite !checkProperty_resolves. by apply spec_resolve_usage_rel.
Qed.

Lemma CallExpression_rel (entered : gset N) (n : node) (arguments : list expr)
    (sF sT : state) :
  state_rel type entered sF sT →
  (∀ a, a ∈ getBlockStatementAncestors n → anc_range0 a ∈ entered) →
  outcome_rel (state_rel type entered)
    (CallExpression isCreateElement forbidding n arguments sF)
    (CallExpression isCreateElement allowing n arguments sT).
Proof.
  intros Hrel Hin. unfold CallExpression.
  destruct (negb (isCreateElement n) || bool_decide (length arguments = 0%nat));
    [done|].
  destruct arguments as [|first rest]; [done|].
  rewrite !ignoreDOMComponents_set_allow.
  destruct (ignoreDOMComponents configuration && _); [done|].
  destruct rest as [|[] rest]; try done.
  apply array_forEach_rel; [|done].
  intros prop sF' sT' Hrel'. by apply checkProperty_rel.
Qed.

Lemma record_at_rel (entered : gset N) (f t : option violation)
    (x : option string) (blockStart : N) (sF sT : state) :
  state_rel type entered sF sT → blockStart ∈ entered → site_rel type f t →
  outcome_rel (state_rel type entered)
    (record_at f x blockStart sF) (record_at t x blockStart sT).
Proof.
  intros (Hreg & Htable & Hreports) Hin Hsite.
  destruct (Hreg blockStart Hin) as [setsF HsF].
  pose proof (Htable blockStart) as Hb. rewrite HsF in Hb.
  destruct (blockVariableNameSets sT !! blockStart) as [setsT|] eqn:HsT;
    [|by inversion Hb].
  assert (Hsets : sets_rel type setsF setsT) by by inversion Hb.
  pose proof (sets_rel_record type f t x setsF setsT Hsets Hsite) as Hrecord.
  assert (Hother : ∀ b, b ≠ blockStart →
            option_Forall2 (sets_rel type)
              (blockVariableNameSets sF !! b) (blockVariableNameSets sT !! b))
    by (intros; apply Htable).
  destruct Hsite as (_ & Hz & _).
  destruct f as [kf|], t as [kt|]; try (specialize (Hz eq_refl); discriminate);
    unfold record_at, addVariableNameToSet; rewrite ?HsF, ?HsT; simpl;
    [| |exact (conj Hreg (conj Htable Hreports))].
  - split; [|split]; simpl; [| |done].
    + intros b Hb'. destruct (decide (b = blockStart)) as [->|Hne].
      * rewrite lookup_insert_eq. by eexists.
      * rewrite lookup_insert_ne by done. by apply Hreg.
    + intros b. destruct (decide (b = blockStart)) as [->|Hne].
      * rewrite !lookup_insert_eq. by constructor.
      * rewrite !lookup_insert_ne by done. by apply Hother.
  - split; [|split]; simpl; [| |done].
    + intros b Hb'. destruct (decide (b = blockStart)) as [->|Hne].
      * rewrite lookup_insert_eq. by eexists.
      * rewrite lookup_insert_ne by done. by apply Hreg.
    + intros b. destruct (decide (b = blockStart)) as [->|Hne].
      * rewrite lookup_insert_eq, HsT. by constructor.
      * rewrite lookup_insert_ne by done. by apply Hother.
Qed.

Lemma VariableDeclarator_rel (entered : gset N) (n : node) (id : binding_id)
    (init : option expr) (parent_kind : declaration_kind) (sF sT : state) :
  state_rel type entered sF sT →
  (∀ a, a ∈ getBlockStatementAncestors n → anc_range0 a ∈ entered) →
  outcome_rel (state_rel type entered)
    (VariableDeclarator forbidding n id init parent_kind sF)
    (VariableDeclarator allowing n id init parent_kind sT).
Proof.
  intros Hrel Hin. rewrite !VariableDeclarator_record_at.
  destruct init as [e|]; [|done].
  destruct (getBlockStatementAncestors n) as [|block chain] eqn:Hchain; [done|].
  simpl. case_bool_decide; [|done].
  apply record_at_rel; [done| |apply getNodeViolationType_rel].
  apply Hin. by left.
Qed.

Lemma BlockStatement_rel (entered : gset N) (n : node) (sF sT : state) :
  state_rel type entered sF sT →
  outcome_rel (state_rel type ({[range0 n]} ∪ entered))
    (BlockStatement n sF) (BlockStatement n sT).
Proof.
  intros (Hreg & Htable & Hreports). split; [|split]; simpl; [| |done].
  - intros b Hb. destruct (decide (b = range0 n)) as [->|Hne].
    + rewrite lookup_insert_eq. by eexists.
    + rewrite lookup_insert_ne by done. apply Hreg. set_solver.
  - intros b. destruct (decide (b = range0 n)) as [->|Hne].
    + rewrite !lookup_insert_eq. constructor. apply sets_rel_empty.
    + rewrite !lookup_insert_ne by done. apply Htable.
Qed.

Lemma traverse_rel (nodes : list node) (entered : gset N) (sF sT : state) :
  preorder entered nodes = true →
  state_rel type entered sF sT →
  outcome_rel (λ sF' sT', ∃ entered', state_rel type entered' sF' sT')
    (traverse isDOMComponent isCreateElement forbidding nodes sF)
    (traverse isDOMComponent isCreateElement allowing nodes sT).
Proof.
  revert entered sF sT. induction nodes as [|n nodes IH]; intros entered sF sT.
  - intros _ Hrel. by exists entered.
  - simpl. intros [Hin Hrest]%andb_true_iff Hrel.
    assert (Hin' : ∀ a, a ∈ getBlockStatementAncestors n → anc_range0 a ∈ entered).
    { intros a Ha. rewrite forallb_forall in Hin.
      apply list_elem_of_In, Hin in Ha. by apply bool_decide_eq_true_1 in Ha. }
    unfold traverse in *. simpl. unfold mbind, M_bind, dispatch.
    destruct (fields n) as [|id init parent_kind|parent value|arguments|].
    + pose proof (BlockStatement_rel entered n sF sT Hrel) as Hstep.
      destruct (BlockStatement n sF) as [[] sF'|], (BlockStatement n sT) as [[] sT'|];
        try done. by eapply IH.
    + pose proof (VariableDeclarator_rel entered n id init parent_kind sF sT Hrel Hin')
        as Hstep.
      destruct (VariableDeclarator _ n id init parent_kind sF) as [[] sF'|],
               (VariableDeclarator _ n id init parent_kind sT) as [[] sT'|];
        try done. by eapply IH.
    + pose proof (JSXAttribute_rel entered n parent value sF sT Hrel Hin') as Hstep.
      destruct (JSXAttribute _ _ n parent value sF) as [[] sF'|],
               (JSXAttribute _ _ n parent value sT) as [[] sT'|];
        try done. by eapply IH.
    + pose proof (CallExpression_rel entered n arguments sF sT Hrel Hin') as Hstep.
      destruct (CallExpression _ _ n arguments sF) as [[] sF'|],
               (CallExpression _ _ n arguments sT) as [[] sT'|];
        try done. by eapply IH.
    + by eapply IH.
Qed.

End TwoRuns.

(** C7, as the code has it.  With [allowArrays] (respectively
    [allowObjects]) true the classifier never answers that type; it answers
    the other type exactly when the other type is not allowed and one of
    the operands of the expression is a literal of it.  Take a run in which
    every node is visited after the blocks around it, and the same run with
    the option switched from false to true.  The two runs throw on the same
    inputs.  The run that allows the type makes no report of that type,
    directly or through a binding, and its table holds no name under that
    type.  Its reports are those of the first run, in their order, with
    every report of the other type kept and every report of the allowed
    type removed or replaced by a report of the other type at the same
    node; it makes no other report.  Its table holds under the other type
    every name the first run holds under it, and only names the first run
    holds under one of the two types. *)
Theorem allow_replaces_one_type
    (isDOMComponent : JSXOpeningElement → bool) (isCreateElement : node → bool)
    (configuration : config) (type : violation) (nodes : list node) :
  (∀ e, getNodeViolationType (set_allow type true configuration) e
        = if negb (allows configuration (other type))
             && existsb (is_literal_of (other type)) (operands e)
          then Some (other type) else None)
  ∧ (preorder ∅ nodes = true →
     match traverse isDOMComponent isCreateElement
             (set_allow type false configuration) nodes initial_state,
           traverse isDOMComponent isCreateElement
             (set_allow type true configuration) nodes initial_state with
     | Return _ sF, Return _ sT =>
         reports_of type (reports sT) = []
         ∧ reports_of (other type) (reports sF)
             `sublist_of` reports_of (other type) (reports sT)
         ∧ replaced type (reports sF) (reports sT)
         ∧ (∀ b x, ¬ member sT b type x)
         ∧ (∀ b x, member sF b (other type) x → member sT b (other type) x)
         ∧ (∀ b x, member sT b (other type) x →
                   member sF b type x ∨ member sF b (other type) x)
     | Throw _, Throw _ => True
     | _, _ => False
     end).
Proof.
  split; [intros e; apply getNodeViolationType_allowing|].
  intros Hpre.
  pose proof (traverse_rel isDOMComponent isCreateElement configuration type
                nodes ∅ initial_state initial_state Hpre) as Hrun.
  destruct (traverse _ _ (set_allow type false configuration) nodes initial_state)
    as [[] sF|], (traverse _ _ (set_allow type true configuration) nodes initial_state)
    as [[] sT|]; simpl in Hrun |- *; try done.
  - destruct Hrun as (entered & _ & Htable & (Hnone & Hsub) & Hrep).
    { split; [|split].
      - intros b Hb. by apply not_elem_of_empty in Hb.
      - intros b. simpl. rewrite lookup_empty. constructor.
      - split; [split; [done|constructor]|constructor]. }
    split; [done|]. split; [done|]. split; [done|].
    by apply sets_rel_members.
  - apply Hrun. split; [|split].
    + intros b Hb. by apply not_elem_of_empty in Hb.
    + intros b. simpl. rewrite lookup_empty. constructor.
    + split; [split; [done|constructor]|constructor].
  - apply Hrun. split; [|split].
    + intros b Hb. by apply not_elem_of_empty in Hb.
    + intros b. simpl. rewrite lookup_empty. constructor.
    + split; [split; [done|constructor]|constructor].
Qed.

Lemma allow_replaces_one_type_witness :
  preorder ∅ Sample.contrast = true
  ∧ ∃ sF sT,
      Sample.run (set_allow array false Sample.defaults) Sample.contrast = Return tt sF
      ∧ Sample.run (set_allow array true Sample.defaults) Sample.contrast = Return tt sT
      ∧ reports sF
        = [ {| report_node := AtNode Sample.array_usage;
               message := "Props should not use array allocations" |};
            {| report_node := AtNode Sample.object_usage;
               message := "Props should not use object allocations" |};
            {| report_node := AtNode Sample.ternary_usage;
               message := "Props should not use array allocations" |} ]
      ∧ reports sT
        = [ {| report_node := AtNode Sample.object_usage;
               message := "Props should not use object allocations" |};
            {| report_node := AtNode Sample.ternary_usage;
               message := "Props should not use object allocations" |} ]
      ∧ reports_of array (reports sT) = []
      ∧ replaced array (reports sF) (reports sT).
Proof.
  split; [reflexivity|].
  pose proof (proj2 (allow_replaces_one_type Sample.isDOMComponent
                       Sample.isCreateElement Sample.defaults array Sample.contrast)
                eq_refl) as Hruns.
  unfold Sample.run.
  destruct (traverse _ _ (set_allow array false Sample.defaults) Sample.contrast
              initial_state) as [[] sF|] eqn:HF; [|by vm_compute in HF].
  destruct (traverse _ _ (set_allow array true Sample.defaults) Sample.contrast
              initial_state) as [[] sT|] eqn:HT; [|by vm_compute in HT].
  destruct Hruns as (Hnone & _ & Hrep & _).
  exists sF, sT. split; [done|]. split; [done|].
  split; [vm_compute in HF; by injection HF as <-|].
  split; [vm_compute in HT; by injection HT as <-|].
  by split.
Defined.

(** The claim of C7 fails on [{ <Foo bar={c ? [] : {}} /> }]: with
    [allowArrays] false the attribute is reported as an array and there is
    no object report; with [allowArrays] true the same attribute is
    reported as an object.  The reports of the object type are not the same
    in the two runs. *)
Lemma allowArrays_changes_object_reports :
  ∃ sF sT,
    Sample.run (set_allow array false Sample.defaults) Sample.ternary = Return tt sF
    ∧ Sample.run (set_allow array true Sample.defaults) Sample.ternary = Return tt sT
    ∧ reports_of object (reports sF) = []
    ∧ reports_of object (reports sT)
      = [ {| report_node := AtNode Sample.ternary_usage;
             message := "Props should not use object allocations" |} ].
Proof.
  eexists _, _. split; [vm_compute; reflexivity|].
  split; [vm_compute; reflexivity|]. split; reflexivity.
Qed.

(** * Further properties of the rule *)

(** ** Nested conditional expressions *)

Section Operands.

Variable configuration : config.



End Operands.


(** ** When the handlers throw *)

Section Throws.

Variable n : node.

Lemma resolve_Unregistered (sets : gmap N block_sets) (name : string)
    (chain : list ancestor) :
  resolve sets name chain = Unregistered
  ↔ ∃ inner block outer,
      chain = inner ++ block :: outer
      ∧ (∀ a, a ∈ inner →
           ∃ sets', sets !! anc_range0 a = Some sets'
                    ∧ (Some name ∉ array_set sets') ∧ (Some name ∉ object_set sets'))
      ∧ sets !! anc_range0 block = None.
Proof.
  induction chain as [|a chain IH]; simpl.
  - split; [done|]. intros (inner & block & outer & Hnil & _).
    by destruct inner.
  - destruct (sets !! anc_range0 a) as [blockSets|] eqn:Ha.
    + destruct (block_violation name blockSets) as [type|] eqn:Hv.
      * split; [done|]. intros (inner & block & outer & Hchain & Hinner & Hblock).
        destruct inner as [|a' inner]; simplify_eq/=.
        destruct (Hinner a') as (sets' & Hsets' & Hmiss); [by left|].
        simplify_eq. apply block_violation_None in Hmiss. congruence.
      * rewrite IH. split.
        -- intros (inner & block & outer & -> & Hinner & Hblock).
           exists (a :: inner), block, outer. split; [done|]. split; [|done].
           intros a' [->|Ha']%elem_of_cons; [|by apply Hinner].
           exists blockSets. split; [done|]. by apply block_violation_None.
        -- intros (inner & block & outer & Hchain & Hinner & Hblock).
           destruct inner as [|a' inner]; simplify_eq/=.
           exists inner, block, outer. split; [done|]. split; [|done].
           intros a Ha'. apply Hinner. by right.
    + split; [|done]. intros _. exists [], a, chain. split; [done|].
      split; [|done]. intros a' Ha'. by apply elem_of_nil in Ha'.
Qed.

Lemma findVariableViolation_throws_table (name : string) (s : state) :
  findVariableViolation n name s = Throw TypeError
  ↔ resolve (blockVariableNameSets s) name (getBlockStatementAncestors n) = Unregistered.
Proof. rewrite findVariableViolation_eq. by destruct (resolve _ _ _). Qed.

(** Whether a lookup throws depends on the table alone. *)
Lemma findVariableViolation_throws_ext (name : string) (s1 s2 : state) :
  blockVariableNameSets s1 = blockVariableNameSets s2 →
  findVariableViolation n name s1 = Throw TypeError
  ↔ findVariableViolation n name s2 = Throw TypeError.
Proof. intros Htable. by rewrite !findVariableViolation_throws_table, Htable. Qed.

End Throws.

(** X2.  A lookup throws exactly when its walk reaches a block without a
    record before it has found the name: the chain of blocks around the node
    has a block without a record, and every block further in has a record
    that does not hold the name.  The blocks further out play no part. *)
Theorem findVariableViolation_throws (n : node) (name : string) (s : state) :
  findVariableViolation n name s = Throw TypeError
  ↔ ∃ inner block outer,
      getBlockStatementAncestors n = inner ++ block :: outer
      ∧ (∀ a, a ∈ inner →
           ∃ sets', blockVariableNameSets s !! anc_range0 a = Some sets'
                    ∧ (Some name ∉ array_set sets') ∧ (Some name ∉ object_set sets'))
      ∧ blockVariableNameSets s !! anc_range0 block = None.
Proof. by rewrite findVariableViolation_throws_table, resolve_Unregistered. Qed.

Lemma findVariableViolation_throws_witness :
  findVariableViolation Sample.usage_of_a "a" initial_state = Throw TypeError.
Proof.
  apply (proj2 (findVariableViolation_throws Sample.usage_of_a "a" initial_state)).
  exists [], (Sample.block 0), []. split; [reflexivity|]. split; [|reflexivity].
  intros a Ha. by apply elem_of_nil in Ha.
Defined.

(** X3.  The declarator handler throws exactly when it is about to record,
    that is for a [const] declarator with an initializer that the classifier
    answers a type for and with a block around it, and the nearest such
    block has no record.  In every other case it returns; a declarator
    without initializer, outside every block, of a [let] or [var]
    declaration or with an initializer that is no violation leaves the state
    as it is, whatever the table holds. *)
Theorem VariableDeclarator_throws (configuration : config) (n : node)
    (id : binding_id) (init : option expr) (parent_kind : declaration_kind) (s : state) :
  (VariableDeclarator configuration n id init parent_kind s = Throw TypeError
   ↔ ∃ e block type,
       init = Some e
       ∧ head (getBlockStatementAncestors n) = Some block
       ∧ parent_kind = const_kind
       ∧ getNodeViolationType configuration e = Some type
       ∧ blockVariableNameSets s !! anc_range0 block = None)
  ∧ (init = None ∨ getBlockStatementAncestors n = [] ∨ parent_kind ≠ const_kind
     ∨ (∃ e, init = Some e ∧ getNodeViolationType configuration e = None) →
     VariableDeclarator configuration n id init parent_kind s = Return tt s).
Proof.
  rewrite VariableDeclarator_record_at. split.
  - destruct init as [e|]; [|split; [done|by intros (? & ? & ? & [=] & _)]].
    destruct (head (getBlockStatementAncestors n)) as [block|];
      [|split; [done|by intros (? & ? & ? & _ & [=] & _)]].
    case_bool_decide as Hkind;
      [|split; [done|by intros (? & ? & ? & _ & _ & ? & _)]].
    destruct (getNodeViolationType configuration e) as [type|] eqn:Htype;
      [|split; [done|intros (? & ? & ? & [= <-] & _ & _ & ? & _); congruence]].
    simpl. unfold addVariableNameToSet.
    destruct (blockVariableNameSets s !! anc_range0 block) as [blockSets|] eqn:Hb.
    + split; [done|]. intros (? & ? & ? & _ & [= <-] & _ & _ & ?). congruence.
    + split; [|done]. intros _. by exists e, block, type.
  - intros [->|[Hnil|[Hkind|(e & -> & Hnone)]]]; [done| | |].
    + rewrite Hnil. by destruct init.
    + destruct init; [|done]. destruct (head _); [|done]. by case_bool_decide.
    + rewrite Hnone. destruct (head _); [|done]. by case_bool_decide.
Qed.

Lemma VariableDeclarator_throws_witness :
  VariableDeclarator Sample.defaults Sample.const_a
    (BindingIdentifier "a") (Some (ArrayExpression [])) const_kind initial_state
  = Throw TypeError
  ∧ VariableDeclarator Sample.defaults Sample.const_a
      (BindingIdentifier "a") (Some (ArrayExpression [])) let_kind initial_state
    = Return tt initial_state.
Proof.
  split.
  - apply (proj2 (proj1 (VariableDeclarator_throws Sample.defaults Sample.const_a
             (BindingIdentifier "a") (Some (ArrayExpression [])) const_kind
             initial_state))).
    by exists (ArrayExpression []), (Sample.block 0), array.
  - apply (proj2 (VariableDeclarator_throws Sample.defaults Sample.const_a
             (BindingIdentifier "a") (Some (ArrayExpression [])) let_kind
             initial_state)).
    right. right. by left.
Defined.

Section UsageThrows.

Variable isDOMComponent : JSXOpeningElement → bool.
Variable isCreateElement : node → bool.
Variable configuration : config.
Variable n : node.

(** An expression that is not an identifier is classified directly, which
    cannot throw. *)
Lemma spec_resolve_usage_direct (anchor : reported_node) (e : expr) (s : state) :
  (∀ name, e ≠ Identifier name) →
  spec_resolve_usage configuration n anchor e s
  = Return tt (emit anchor (getNodeViolationType configuration e) s).
Proof.
  intros Hne. destruct e; try apply report_or_not. by destruct (Hne name).
Qed.

Lemma spec_resolve_usage_throws (anchor : reported_node) (e : expr) (s : state) :
  spec_resolve_usage configuration n anchor e s = Throw TypeError
  ↔ ∃ name, e = Identifier name ∧ findVariableViolation n name s = Throw TypeError.
Proof.
  destruct e; try (rewrite spec_resolve_usage_direct by done;
                   split; [done|by intros (? & [=] & _)]).
  simpl. split; [intros H; by exists name|by intros (? & [= <-] & ?)].
Qed.

(** A property either makes the callback throw, and then it is a property
    with an identifier value whose lookup throws, or the callback returns
    with the table it was called with. *)
Lemma checkProperty_cases (prop : property) (s : state) :
  (checkProperty configuration n prop s = Throw TypeError
   ∧ ∃ key name, prop = Property key (Identifier name)
                 ∧ findVariableViolation n name s = Throw TypeError)
  ∨ (∃ s1, checkProperty configuration n prop s = Return tt s1
           ∧ blockVariableNameSets s1 = blockVariableNameSets s
           ∧ ∀ key name, prop = Property key (Identifier name) →
                         findVariableViolation n name s ≠ Throw TypeError).
Proof.
  destruct (checkProperty configuration n prop s) as [[] s1|[]] eqn:Hcheck.
  - right. exists s1. split; [done|]. split.
    + destruct prop as [key e|argument].
      * rewrite checkProperty_resolves in Hcheck.
        by apply spec_resolve_usage_grows in Hcheck as [? _].
      * by injection Hcheck as <-.
    + intros key name ->. change (findVariableViolation n name s = Return tt s1) in Hcheck.
      congruence.
  - left. split; [done|]. destruct prop as [key e|argument]; [|done].
    rewrite checkProperty_resolves in Hcheck.
    apply spec_resolve_usage_throws in Hcheck as (name & -> & Hthrow).
    by exists key, name.
Qed.

Lemma forEach_checkProperty_throws (properties : list property) (s : state) :
  array_forEach (checkProperty configuration n) properties s = Throw TypeError
  ↔ ∃ key name, Property key (Identifier name) ∈ properties
                ∧ findVariableViolation n name s = Throw TypeError.
Proof.
  revert s. induction properties as [|prop properties IH]; intros s.
  - split; [done|]. intros (key & name & Hin & _). by apply elem_of_nil in Hin.
  - simpl. unfold mbind, M_bind.
    destruct (checkProperty_cases prop s)
      as [(-> & key & name & -> & Hthrow)|(s1 & -> & Htable & Hok)].
    + split; [|done]. intros _. exists key, name. split; [by left|done].
    + rewrite IH. split.
      * intros (key & name & Hin & Hthrow). exists key, name.
        split; [by right|]. by rewrite <- (findVariableViolation_throws_ext n name s1 s).
      * intros (key & name & [Heq|Hin]%elem_of_cons & Hthrow).
        -- by destruct (Hok key name).
        -- exists key, name. split; [done|].
           by rewrite (findVariableViolation_throws_ext n name s1 s).
Qed.

End UsageThrows.

(** X4.  The attribute handler throws in two cases only, and never on an
    attribute it skips: the value is missing or is not an expression
    container, or the value is an identifier whose lookup throws.  An
    attribute whose value is any other expression never makes it throw,
    whatever the table holds. *)
Theorem JSXAttribute_throws (isDOMComponent : JSXOpeningElement → bool)
    (configuration : config) (n : node) (parent : JSXOpeningElement)
    (value : option attribute_value) (s : state) :
  JSXAttribute isDOMComponent configuration n parent value s = Throw TypeError
  ↔ ignoreDOMComponents configuration && isDOMComponent parent = false
    ∧ ((∀ e, value ≠ Some (JSXExpressionContainer e))
       ∨ ∃ name, value = Some (JSXExpressionContainer (Identifier name))
                 ∧ findVariableViolation n name s = Throw TypeError).
Proof.
  destruct (ignoreDOMComponents configuration && isDOMComponent parent) eqn:Hskip.
  { unfold JSXAttribute. rewrite Hskip. split; [done|by intros [[=] _]]. }
  destruct value as [[e| |]|].
  - rewrite JSXAttribute_resolves by done. split.
    + intros Hthrow. split; [done|]. right.
      apply spec_resolve_usage_throws in Hthrow as (name & -> & Hthrow).
      by exists name.
    + intros [_ [Hno|(name & [= ->] & Hthrow)]]; [by destruct (Hno e)|done].
  - unfold JSXAttribute. rewrite Hskip. split; [|done]. intros _.
    split; [done|by left].
  - unfold JSXAttribute. rewrite Hskip. split; [|done]. intros _.
    split; [done|by left].
  - unfold JSXAttribute. rewrite Hskip. split; [|done]. intros _.
    split; [done|by left].
Qed.

Lemma JSXAttribute_throws_witness :
  JSXAttribute Sample.isDOMComponent Sample.defaults Sample.usage_of_a
    {| elementName := "Foo" |} (Some (JSXExpressionContainer (Identifier "a")))
    initial_state
  = Throw TypeError.
Proof.
  apply (proj2 (JSXAttribute_throws Sample.isDOMComponent Sample.defaults
                  Sample.usage_of_a {| elementName := "Foo" |}
                  (Some (JSXExpressionContainer (Identifier "a"))) initial_state)).
  split; [reflexivity|]. right. by exists "a".
Defined.

(** X5.  The call handler throws in one case only: the call is a
    [createElement] call that is not skipped, its second argument is an
    object literal, and one of the properties of that literal has an
    identifier as its value whose lookup throws.  A call that is not a
    [createElement] call, has fewer than two arguments or has a second
    argument that is not an object literal never makes it throw. *)
Theorem CallExpression_throws (isCreateElement : node → bool)
    (configuration : config) (n : node) (arguments : list expr) (s : state) :
  CallExpression isCreateElement configuration n arguments s = Throw TypeError
  ↔ isCreateElement n = true
    ∧ ∃ first properties rest,
        arguments = first :: ObjectExpression properties :: rest
        ∧ ignoreDOMComponents configuration && is_Literal first = false
        ∧ ∃ key name, Property key (Identifier name) ∈ properties
                      ∧ findVariableViolation n name s = Throw TypeError.
Proof.
  unfold CallExpression. destruct (isCreateElement n) eqn:Hcreate; simpl.
  2:{ split; [done|by intros [[=] _]]. }
  destruct arguments as [|first rest]; simpl.
  { split; [done|by intros (_ & ? & ? & ? & [=] & _)]. }
  change (match first with Literal => true | _ => false end) with (is_Literal first).
  destruct (ignoreDOMComponents configuration && is_Literal first) eqn:Hskip.
  { split; [done|]. intros (_ & f & p & r & Heq & Hs & _). simplify_eq.
    congruence. }
  destruct rest as [|second rest];
    [split; [done|by intros (_ & ? & ? & ? & [=] & _)]|].
  destruct second;
    try (split; [done|by intros (_ & ? & ? & ? & [=] & _)]).
  rewrite forEach_checkProperty_throws. split.
  - intros Hprop. split; [done|]. by exists first, properties, rest.
  - intros (_ & f & p & r & Heq & _ & Hprop). by simplify_eq.
Qed.

Lemma CallExpression_throws_witness :
  CallExpression Sample.isCreateElement Sample.defaults Sample.create_Foo_a
    [OtherExpression; ObjectExpression [Property "bar" (Identifier "a")]] initial_state
  = Throw TypeError.
Proof.
  apply (proj2 (CallExpression_throws Sample.isCreateElement Sample.defaults
                  Sample.create_Foo_a
                  [OtherExpression; ObjectExpression [Property "bar" (Identifier "a")]]
                  initial_state)).
  split; [reflexivity|].
  exists OtherExpression, [Property "bar" (Identifier "a")], [].
  split; [reflexivity|]. split; [reflexivity|].
  exists "bar", "a". split; [by left|reflexivity].
Defined.

(** ** Recording and looking up *)

Section RecordLookup.

Variable name : string.

Lemma block_violation_set_add (type : violation) (blockSets : block_sets) :
  block_violation name (set_add type (Some name) blockSets)
  = Some (if bool_decide (Some name ∈ array_set blockSets) then array else type).
Proof.
  unfold block_violation. destruct type; simpl; repeat case_bool_decide;
    try done; set_solver.
Qed.

Lemma block_violation_set_add_undefined (type : violation) (blockSets : block_sets) :
  block_violation name (set_add type None blockSets) = block_violation name blockSets.
Proof.
  unfold block_violation. destruct type; simpl; repeat case_bool_decide;
    try done; set_solver.
Qed.

Lemma resolve_after_record (type : violation) (sets : gmap N block_sets)
    (inner : list ancestor) (block : ancestor) (outer : list ancestor)
    (blockSets : block_sets) :
  (∀ a, a ∈ inner →
     ∃ sets', sets !! anc_range0 a = Some sets'
              ∧ block_violation name sets' = None) →
  sets !! anc_range0 block = Some blockSets →
  resolve (<[anc_range0 block := set_add type (Some name) blockSets]> sets)
    name (inner ++ block :: outer)
  = Resolved (if bool_decide (Some name ∈ array_set blockSets) then array else type).
Proof.
  intros Hinner Hblock. induction inner as [|a inner IH]; simpl.
  - by rewrite lookup_insert_eq, block_violation_set_add.
  - destruct (decide (anc_range0 a = anc_range0 block)) as [Heq|Hne].
    + by rewrite Heq, lookup_insert_eq, block_violation_set_add.
    + rewrite lookup_insert_ne by done.
      destruct (Hinner a) as (sets' & -> & ->); [by left|].
      apply IH. intros a' Ha'. apply Hinner. by right.
Qed.

Lemma resolve_record_undefined (type : violation) (sets : gmap N block_sets)
    (blockStart : N) (blockSets : block_sets) (chain : list ancestor) :
  sets !! blockStart = Some blockSets →
  resolve (<[blockStart := set_add type None blockSets]> sets) name chain
  = resolve sets name chain.
Proof.
  intros Hblock. induction chain as [|a chain IH]; [done|]. simpl.
  destruct (decide (anc_range0 a = blockStart)) as [->|Hne].
  - rewrite lookup_insert_eq, Hblock, block_violation_set_add_undefined.
    by rewrite IH.
  - rewrite lookup_insert_ne by done. by rewrite IH.
Qed.

End RecordLookup.

(** X6.  A name that has just been recorded is found.  After
    [addVariableNameToSet] has put the name into the record of a block, a
    lookup of that name from a node inside the block, through inner blocks
    whose records do not hold it, reports once, at the node: as an array if
    the block already had the name as an array, and as the recorded type
    otherwise. *)
Theorem recorded_name_is_found (n : node) (name : string) (type : violation)
    (inner : list ancestor) (block : ancestor) (outer : list ancestor)
    (blockSets : block_sets) (s : state) :
  getBlockStatementAncestors n = inner ++ block :: outer →
  (∀ a, a ∈ inner →
     ∃ sets', blockVariableNameSets s !! anc_range0 a = Some sets'
              ∧ (Some name ∉ array_set sets') ∧ (Some name ∉ object_set sets')) →
  blockVariableNameSets s !! anc_range0 block = Some blockSets →
  ∃ s1, addVariableNameToSet type (Some name) (anc_range0 block) s = Return tt s1
        ∧ findVariableViolation n name s1
          = Return tt
              (add_report (AtNode n)
                 (if bool_decide (Some name ∈ array_set blockSets) then array else type)
                 s1).
Proof.
  intros Hchain Hinner Hblock. unfold addVariableNameToSet. rewrite Hblock.
  eexists. split; [done|]. rewrite findVariableViolation_eq, Hchain. simpl.
  rewrite (resolve_after_record name type _ inner block outer blockSets); [done| |done].
  intros a Ha. destruct (Hinner a Ha) as (sets' & Hsets' & Hmiss).
  exists sets'. split; [done|]. by apply block_violation_None.
Qed.

Lemma recorded_name_is_found_witness :
  ∃ s1, addVariableNameToSet object (Some "a") 0 Sample.entered = Return tt s1
        ∧ findVariableViolation Sample.usage_of_a "a" s1
          = Return tt (add_report (AtNode Sample.usage_of_a) object s1).
Proof.
  destruct (recorded_name_is_found Sample.usage_of_a "a" object
              [] (Sample.block 0) [] empty_sets Sample.entered)
    as (s1 & Hs1 & Hfind).
  - reflexivity.
  - intros a Ha. by apply elem_of_nil in Ha.
  - reflexivity.
  - exists s1. split; [exact Hs1|]. rewrite Hfind. reflexivity.
Defined.

(** X7.  A declarator whose target is a destructuring pattern has no name:
    whatever the handler records for it, no lookup of any identifier from
    any node changes its answer. *)
Theorem pattern_declarator_is_never_found (configuration : config) (n : node)
    (init : option expr) (parent_kind : declaration_kind) (s s' : state) :
  VariableDeclarator configuration n BindingPattern init parent_kind s = Return tt s' →
  ∀ site name,
    emitted (findVariableViolation site name s') s'
    = emitted (findVariableViolation site name s) s.
Proof.
  rewrite VariableDeclarator_record_at. intros Hrun site name.
  assert (Hsame : Return tt s = Return tt s' →
            emitted (findVariableViolation site name s') s'
            = emitted (findVariableViolation site name s) s) by by intros [= <-].
  destruct init as [e|]; [|by apply Hsame].
  destruct (head (getBlockStatementAncestors n)) as [block|]; [|by apply Hsame].
  case_bool_decide; [|by apply Hsame].
  destruct (getNodeViolationType configuration e) as [type|]; [|by apply Hsame].
  simpl in Hrun. unfold addVariableNameToSet in Hrun.
  destruct (blockVariableNameSets s !! anc_range0 block) as [blockSets|] eqn:Hblock;
    [|done].
  injection Hrun as <-. rewrite !emitted_findVariableViolation. simpl.
  by rewrite resolve_record_undefined.
Qed.

Lemma pattern_declarator_is_never_found_witness :
  ∃ s', VariableDeclarator Sample.defaults Sample.const_pattern BindingPattern
          (Some (ArrayExpression [])) const_kind Sample.entered = Return tt s'
        ∧ member s' 0 array None
        ∧ emitted (findVariableViolation Sample.usage_of_a "a" s') s' = Some [].
Proof.
  eexists. split; [reflexivity|]. split.
  - eexists. split; [reflexivity|]. by apply (bool_decide_unpack _).
  - rewrite (pattern_declarator_is_never_found Sample.defaults Sample.const_pattern
               (Some (ArrayExpression [])) const_kind Sample.entered _ eq_refl).
    reflexivity.
Defined.

(** ** Where reports are anchored *)

Section Anchors.

Variable configuration : config.
Variable n : node.

Lemma emitted_emit (anchor : reported_node) (o : option violation) (s : state) :
  emitted (Return tt (emit anchor o s)) s
  = Some match o with
         | Some type =>
             [{| report_node := anchor; message := violationMessageStore type |}]
         | None => []
         end.
Proof. destruct o; [apply emitted_add_report|apply emitted_same]. Qed.

Lemma spec_resolve_usage_anchor (anchor : reported_node) (e : expr) (s : state)
    (added : list report) (r : report) :
  emitted (spec_resolve_usage configuration n anchor e s) s = Some added →
  r ∈ added →
  report_node r = match e with Identifier _ => AtNode n | _ => anchor end.
Proof.
  assert (Hdirect : (∀ name, e ≠ Identifier name) →
    emitted (spec_resolve_usage configuration n anchor e s) s = Some added →
    r ∈ added → report_node r = anchor).
  { intros Hne. rewrite spec_resolve_usage_direct, emitted_emit by done.
    intros [= <-]. destruct (getNodeViolationType configuration e).
    - by intros ->%list_elem_of_singleton.
    - by intros ?%elem_of_nil. }
  destruct e; try (by apply Hdirect).
  simpl. rewrite emitted_findVariableViolation.
  destruct (resolve _ _ _); intros [= <-].
  - by intros ?%elem_of_nil.
  - by intros ->%list_elem_of_singleton.
Qed.

End Anchors.

(** X8.  A report of the attribute handler is anchored at the attribute.  A
    report for a property of a props object is anchored at the property when
    its value is classified directly, but at the call expression when the
    value is an identifier found by lookup. *)
Theorem reports_are_anchored (isDOMComponent : JSXOpeningElement → bool)
    (configuration : config) (n : node) (s : state) (added : list report) (r : report) :
  (∀ parent value,
      emitted (JSXAttribute isDOMComponent configuration n parent value s) s
      = Some added →
      r ∈ added → report_node r = AtNode n)
  ∧ (∀ key e,
      emitted (checkProperty configuration n (Property key e) s) s = Some added →
      r ∈ added →
      report_node r = match e with
                      | Identifier _ => AtNode n
                      | _ => AtProperty (Property key e)
                      end).
Proof.
  split.
  - intros parent value.
    destruct (ignoreDOMComponents configuration && isDOMComponent parent) eqn:Hskip.
    { unfold JSXAttribute. rewrite Hskip.
      change (emitted (Return tt s) s = Some added → r ∈ added →
              report_node r = AtNode n).
      rewrite emitted_same. intros [= <-]. by intros ?%elem_of_nil. }
    destruct value as [[e| |]|];
      try (unfold JSXAttribute; by rewrite Hskip).
    rewrite JSXAttribute_resolves by done. intros Hadded Hr.
    rewrite (spec_resolve_usage_anchor configuration n (AtNode n) e s added r Hadded Hr).
    by destruct e.
  - intros key e. rewrite checkProperty_resolves.
    apply spec_resolve_usage_anchor.
Qed.

Lemma reports_are_anchored_witness :
  emitted (checkProperty Sample.defaults Sample.create_Foo_a
             (Property "bar" (Identifier "a")) Sample.a_recorded) Sample.a_recorded
  = Some [Sample.report_at_call]
  ∧ report_node Sample.report_at_call = AtNode Sample.create_Foo_a.
Proof.
  split; [reflexivity|].
  apply (proj2 (reports_are_anchored Sample.isDOMComponent Sample.defaults
                  Sample.create_Foo_a Sample.a_recorded [Sample.report_at_call]
                  Sample.report_at_call) "bar" (Identifier "a")).
  - reflexivity.
  - by left.
Defined.

(** ** The table over a run *)

Section Table.

Variable isDOMComponent : JSXOpeningElement → bool.
Variable isCreateElement : node → bool.
Variable configuration : config.

(** What one handler call does to the table. *)
Lemma dispatch_table (n : node) (s s' : state) :
  dispatch isDOMComponent isCreateElement configuration n s = Return tt s' →
  match fields n with
  | BlockStatementFields =>
      blockVariableNameSets s'
      = <[range0 n := empty_sets]> (blockVariableNameSets s)
  | VariableDeclaratorFields id init parent_kind =>
      blockVariableNameSets s' = blockVariableNameSets s
      ∨ ∃ e block type blockSets,
          init = Some e
          ∧ head (getBlockStatementAncestors n) = Some block
          ∧ parent_kind = const_kind
          ∧ getNodeViolationType configuration e = Some type
          ∧ blockVariableNameSets s !! anc_range0 block = Some blockSets
          ∧ blockVariableNameSets s'
            = <[anc_range0 block := set_add type (id_name id) blockSets]>
                (blockVariableNameSets s)
  | _ => blockVariableNameSets s' = blockVariableNameSets s
  end.
Proof.
  unfold dispatch.
  destruct (fields n) as [|id init parent_kind|parent value|arguments|] eqn:Hfields.
  - by intros [= <-].
  - rewrite VariableDeclarator_record_at.
    destruct init as [e|]; [|intros [= <-]; by left].
    destruct (head (getBlockStatementAncestors n)) as [block|];
      [|intros [= <-]; by left].
    case_bool_decide as Hkind; [|intros [= <-]; by left].
    destruct (getNodeViolationType configuration e) as [type|] eqn:Htype;
      [|intros [= <-]; by left].
    simpl. unfold addVariableNameToSet.
    destruct (blockVariableNameSets s !! anc_range0 block) as [blockSets|] eqn:Hb;
      [|done].
    intros [= <-]. right. by exists e, block, type, blockSets.
  - intros H. by apply JSXAttribute_grows in H as [? _].
  - intros H. by apply (CallExpression_grows _ _ _ _ _ _ Hfields) in H as [? _].
  - by intros [= <-].
Qed.

Lemma dispatch_dom (n : node) (s s' : state) :
  dispatch isDOMComponent isCreateElement configuration n s = Return tt s' →
  dom (blockVariableNameSets s')
  = block_starts [n] ∪ dom (blockVariableNameSets s).
Proof.
  intros Hrun. apply dispatch_table in Hrun. unfold block_starts. simpl.
  destruct (fields n); simpl.
  - rewrite Hrun, dom_insert_L. set_solver.
  - destruct Hrun as [->|(e & block & type & blockSets & _ & _ & _ & _ & Hb & ->)].
    + set_solver.
    + rewrite dom_insert_lookup_L by done. set_solver.
  - rewrite Hrun. set_solver.
  - rewrite Hrun. set_solver.
  - rewrite Hrun. set_solver.
Qed.

Lemma dispatch_members (n : node) (s s' : state) (b : N) (t : violation)
    (x : option string) :
  dispatch isDOMComponent isCreateElement configuration n s = Return tt s' →
  member s' b t x →
  member s b t x
  ∨ ∃ id e block,
      fields n = VariableDeclaratorFields id (Some e) const_kind
      ∧ head (getBlockStatementAncestors n) = Some block
      ∧ anc_range0 block = b
      ∧ getNodeViolationType configuration e = Some t
      ∧ id_name id = x.
Proof.
  intros Hrun. apply dispatch_table in Hrun. unfold member.
  destruct (fields n) as [|id init parent_kind|parent value|arguments|].
  - rewrite Hrun. intros (blockSets & Hb & Hx).
    destruct (decide (b = range0 n)) as [->|Hne].
    + rewrite lookup_insert_eq in Hb. injection Hb as <-.
      destruct t; simpl in Hx; set_solver.
    + rewrite lookup_insert_ne in Hb by done. left. eauto.
  - destruct Hrun as [->|(e & block & type & blockSets & -> & Hhead & -> & Htype
                          & Hb & ->)]; [by left|].
    intros (sets' & Hb' & Hx).
    destruct (decide (b = anc_range0 block)) as [->|Hne].
    + rewrite lookup_insert_eq in Hb'. injection Hb' as <-.
      apply get_set_set_add in Hx as [Hx|[-> ->]].
      * left. eauto.
      * right. by exists id, e, block.
    + rewrite lookup_insert_ne in Hb' by done. left. eauto.
  - rewrite Hrun. by left.
  - rewrite Hrun. by left.
  - rewrite Hrun. by left.
Qed.

End Table.

(** X9.  A run never drops a record and creates records for block
    statements only: when it returns, the blocks that have a record are
    those that had one before together with the block statements visited. *)
Theorem traverse_dom (isDOMComponent : JSXOpeningElement → bool)
    (isCreateElement : node → bool) (configuration : config)
    (nodes : list node) (s s' : state) :
  traverse isDOMComponent isCreateElement configuration nodes s = Return tt s' →
  dom (blockVariableNameSets s')
  = dom (blockVariableNameSets s) ∪ block_starts nodes.
Proof.
  revert s. induction nodes as [|n nodes IH]; intros s.
  - intros [= <-]. unfold block_starts. set_solver.
  - unfold traverse in *. simpl. unfold mbind, M_bind.
    destruct (dispatch _ _ _ n s) as [[] s1|] eqn:H1; [|done].
    intros H2. apply IH in H2. apply dispatch_dom in H1.
    rewrite H2, H1. unfold block_starts. simpl.
    destruct (fields n); simpl; set_solver.
Qed.

Lemma traverse_dom_witness :
  ∃ s', Sample.run Sample.defaults Sample.shadowed = Return tt s'
        ∧ dom (blockVariableNameSets s') = {[0%N; 20%N]}.
Proof.
  eexists. split; [reflexivity|].
  rewrite (traverse_dom Sample.isDOMComponent Sample.isCreateElement Sample.defaults
             Sample.shadowed initial_state _ eq_refl).
  reflexivity.
Defined.

(** X10.  Names enter the table through [const] declarators only.  When a
    run returns, a name that is in a set of a block and was not there before
    the run is the name of a visited declarator with an initializer, of a
    [const] declaration, whose nearest block is that block and whose
    initializer the classifier answers that type for. *)
Theorem members_come_from_declarators (isDOMComponent : JSXOpeningElement → bool)
    (isCreateElement : node → bool) (configuration : config)
    (nodes : list node) (s s' : state) (b : N) (t : violation) (x : option string) :
  traverse isDOMComponent isCreateElement configuration nodes s = Return tt s' →
  member s' b t x →
  member s b t x
  ∨ ∃ n id e block,
      n ∈ nodes
      ∧ fields n = VariableDeclaratorFields id (Some e) const_kind
      ∧ head (getBlockStatementAncestors n) = Some block
      ∧ anc_range0 block = b
      ∧ getNodeViolationType configuration e = Some t
      ∧ id_name id = x.
Proof.
  revert s. induction nodes as [|n nodes IH]; intros s.
  - intros [= <-]. by left.
  - unfold traverse in *. simpl. unfold mbind, M_bind.
    destruct (dispatch _ _ _ n s) as [[] s1|] eqn:H1; [|done].
    intros H2 Hm. destruct (IH s1 H2 Hm) as [Hm1|(n' & id & e & block & Hin & Hrest)].
    + destruct (dispatch_members _ _ _ n s s1 b t x H1 Hm1)
        as [Hm0|(id & e & block & Hrest)]; [by left|].
      right. exists n, id, e, block. split; [by left|done].
    + right. exists n', id, e, block. split; [by right|done].
Qed.

Lemma members_come_from_declarators_witness :
  ∃ s', Sample.run Sample.defaults Sample.shadowed = Return tt s'
        ∧ member s' 20 object (Some "a")
        ∧ ∃ n, n ∈ Sample.shadowed
               ∧ fields n = VariableDeclaratorFields (BindingIdentifier "a")
                              (Some (ObjectExpression [])) const_kind.
Proof.
  eexists. split; [reflexivity|].
  assert (Hm : member
    {| blockVariableNameSets :=
         <[20%N := {| array_set := ∅; object_set := {[Some "a"]} |}]>
           (<[0%N := {| array_set := {[Some "a"]}; object_set := ∅ |}]> ∅);
       reports := [ {| report_node := AtNode Sample.inner_usage;
                       message := violationMessageStore object |} ] |}
    20 object (Some "a")).
  { eexists. split; [reflexivity|]. by apply (bool_decide_unpack _). }
  split; [exact Hm|].
  destruct (members_come_from_declarators Sample.isDOMComponent Sample.isCreateElement
              Sample.defaults Sample.shadowed initial_state _ 20 object (Some "a")
              eq_refl Hm)
    as [(blockSets & Hb & _)|(n & id & e & block & Hin & Hfields & _ & _ & He & Hid)].
  - done.
  - exists n. split; [done|]. rewrite Hfields.
    destruct id as [name|]; [|done]. injection Hid as ->.
    destruct e; simpl in He; try done.
    + apply list_elem_of_In in Hin. simpl in Hin.
      destruct Hin as [<-|[<-|[<-|[<-|[<-|[]]]]]]; by simplify_eq/=.
    + exfalso. apply list_elem_of_In in Hin. simpl in Hin.
      destruct Hin as [<-|[<-|[<-|[<-|[<-|[]]]]]]; by simplify_eq/=.
Defined.

(** ** Only what the configuration does not allow *)

Section Disallowed.

Variable isDOMComponent : JSXOpeningElement → bool.
Variable isCreateElement : node → bool.
Variable configuration : config.

Lemma getNodeViolationType_allows (e : expr) (t : violation) :
  getNodeViolationType configuration e = Some t → allows configuration t = false.
Proof.
  intros H. apply getNodeViolationType_allowed in H. by destruct t.
Qed.

Lemma resolve_Resolved_member (s : state) (name : string) (chain : list ancestor)
    (t : violation) :
  resolve (blockVariableNameSets s) name chain = Resolved t →
  ∃ b, member s b t (Some name).
Proof.
  induction chain as [|a chain IH]; [done|]. simpl.
  destruct (blockVariableNameSets s !! anc_range0 a) as [blockSets|] eqn:Ha; [|done].
  destruct (block_violation name blockSets) as [t'|] eqn:Hv; [|done].
  intros [= ->]. exists (anc_range0 a), blockSets. split; [done|].
  by apply block_violation_Some.
Qed.

Lemma disallowed_only_emit (anchor : reported_node) (o : option violation) (s : state) :
  disallowed_only configuration s →
  (∀ t, o = Some t → allows configuration t = false) →
  disallowed_only configuration (emit anchor o s).
Proof.
  intros [Htable Hreports] Ho. destruct o as [t|]; [|done].
  split; [done|]. simpl. intros r [Hr|Hr]%elem_of_app; [by apply Hreports|].
  apply list_elem_of_singleton in Hr as ->. exists t. split; [done|]. by apply Ho.
Qed.

Lemma spec_resolve_usage_disallowed (site : node) (anchor : reported_node)
    (e : expr) (s s' : state) :
  disallowed_only configuration s →
  spec_resolve_usage configuration site anchor e s = Return tt s' →
  disallowed_only configuration s'.
Proof.
  intros Hs.
  assert (Hdirect : (∀ name, e ≠ Identifier name) →
    spec_resolve_usage configuration site anchor e s = Return tt s' →
    disallowed_only configuration s').
  { intros Hne. rewrite spec_resolve_usage_direct by done. intros [= <-].
    apply disallowed_only_emit; [done|]. apply getNodeViolationType_allows. }
  destruct e; try (by apply Hdirect).
  simpl. rewrite findVariableViolation_eq.
  destruct (resolve _ _ _) as [|t|] eqn:Hres; intros [= <-]; [done|].
  apply (disallowed_only_emit (AtNode site) (Some t)); [done|].
  intros t' [= <-]. apply resolve_Resolved_member in Hres as [b Hb].
  destruct Hs as [Htable _]. by eapply Htable.
Qed.

Lemma forEach_checkProperty_disallowed (n : node) (properties : list property)
    (s s' : state) :
  disallowed_only configuration s →
  array_forEach (checkProperty configuration n) properties s = Return tt s' →
  disallowed_only configuration s'.
Proof.
  revert s. induction properties as [|prop properties IH]; intros s Hs.
  - by intros [= <-].
  - simpl. unfold mbind, M_bind.
    destruct (checkProperty configuration n prop s) as [[] s1|] eqn:H1; [|done].
    apply IH. destruct prop as [key e|argument].
    + rewrite checkProperty_resolves in H1.
      by eapply spec_resolve_usage_disallowed.
    + by injection H1 as <-.
Qed.

Lemma dispatch_disallowed (n : node) (s s' : state) :
  disallowed_only configuration s →
  dispatch isDOMComponent isCreateElement configuration n s = Return tt s' →
  disallowed_only configuration s'.
Proof.
  intros Hs Hrun.
  assert (Htable : ∀ b t x, member s' b t x → allows configuration t = false).
  { intros b t x Hm.
    destruct (dispatch_members _ _ _ n s s' b t x Hrun Hm)
      as [Hm0|(id & e & block & _ & _ & _ & Ht & _)].
    - destruct Hs as [Hs _]. by eapply Hs.
    - by eapply getNodeViolationType_allows. }
  split; [done|]. unfold dispatch in Hrun.
  destruct (fields n) as [|id init parent_kind|parent value|arguments|].
  - injection Hrun as <-. by destruct Hs.
  - apply VariableDeclarator_reports in Hrun as ->. by destruct Hs.
  - destruct (ignoreDOMComponents configuration && isDOMComponent parent) eqn:Hskip.
    + unfold JSXAttribute in Hrun. rewrite Hskip in Hrun. injection Hrun as <-.
      by destruct Hs.
    + destruct value as [[e| |]|];
        try (unfold JSXAttribute in Hrun; by rewrite Hskip in Hrun).
      rewrite JSXAttribute_resolves in Hrun by done.
      by apply (spec_resolve_usage_disallowed n (AtNode n) e s s' Hs).
  - unfold CallExpression in Hrun.
    destruct (negb (isCreateElement n) || bool_decide (length arguments = 0%nat));
      [injection Hrun as <-; by destruct Hs|].
    destruct arguments as [|first rest]; [injection Hrun as <-; by destruct Hs|].
    destruct (ignoreDOMComponents configuration && _);
      [injection Hrun as <-; by destruct Hs|].
    destruct rest as [|[] rest]; try (injection Hrun as <-; by destruct Hs).
    by apply (forEach_checkProperty_disallowed n properties s s' Hs).
  - injection Hrun as <-. by destruct Hs.
Qed.

Lemma traverse_disallowed (nodes : list node) (s s' : state) :
  disallowed_only configuration s →
  traverse isDOMComponent isCreateElement configuration nodes s = Return tt s' →
  disallowed_only configuration s'.
Proof.
  revert s. induction nodes as [|n nodes IH]; intros s Hs.
  - by intros [= <-].
  - unfold traverse in *. simpl. unfold mbind, M_bind.
    destruct (dispatch _ _ _ n s) as [[] s1|] eqn:H1; [|done].
    apply IH. by eapply dispatch_disallowed.
Qed.

End Disallowed.

(** X11.  Every report of a run carries one of the two messages of
    [violationMessageStore], and always that of a type the configuration
    does not allow, whether the value was a literal or a name found by
    lookup.  With [allowArrays] and [allowObjects] both set, a run reports
    nothing. *)
Theorem reports_are_disallowed (isDOMComponent : JSXOpeningElement → bool)
    (isCreateElement : node → bool) (configuration : config)
    (nodes : list node) (s' : state) :
  traverse isDOMComponent isCreateElement configuration nodes initial_state
  = Return tt s' →
  (∀ r, r ∈ reports s' →
     ∃ t, message r = violationMessageStore t ∧ allows configuration t = false)
  ∧ (allowArrays configuration = true → allowObjects configuration = true →
     reports s' = []).
Proof.
  intros Hrun.
  assert (Hs' : disallowed_only configuration s').
  { apply (traverse_disallowed isDOMComponent isCreateElement configuration
             nodes initial_state s'); [|done].
    split.
    - intros b t x (blockSets & Hb & _). simpl in Hb. by rewrite lookup_empty in Hb.
    - intros r Hr. by apply elem_of_nil in Hr. }
  destruct Hs' as [_ Hreports]. split; [done|].
  intros Ha Ho. destruct (reports s') as [|r rs]; [done|].
  destruct (Hreports r) as (t & _ & Ht); [by left|].
  destruct t; simpl in Ht; congruence.
Qed.

Lemma reports_are_disallowed_witness :
  ∃ s', Sample.run {| allowArrays := true; allowObjects := true;
                      ignoreDOMComponents := false |} Sample.ternary = Return tt s'
        ∧ reports s' = [].
Proof.
  eexists. split; [reflexivity|].
  by apply (proj2 (reports_are_disallowed Sample.isDOMComponent Sample.isCreateElement
                     {| allowArrays := true; allowObjects := true;
                        ignoreDOMComponents := false |} Sample.ternary _ eq_refl)).
Defined.

(** ** Runs that return, exactly *)

Section ReturnsExactly.

Variable isDOMComponent : JSXOpeningElement → bool.
Variable isCreateElement : node → bool.
Variable configuration : config.

Lemma dispatch_has_expression (n : node) (s s' : state) :
  dispatch isDOMComponent isCreateElement configuration n s = Return tt s' →
  has_expression isDOMComponent configuration n = true.
Proof.
  unfold dispatch, has_expression.
  destruct (fields n) as [|id init parent_kind|parent value|arguments|]; try done.
  unfold JSXAttribute.
  destruct (ignoreDOMComponents configuration && isDOMComponent parent); [done|].
  by destruct value as [[e| |]|].
Qed.

Lemma traverse_has_expression (nodes : list node) (s s' : state) :
  traverse isDOMComponent isCreateElement configuration nodes s = Return tt s' →
  forallb (has_expression isDOMComponent configuration) nodes = true.
Proof.
  revert s. induction nodes as [|n nodes IH]; intros s; [done|].
  unfold traverse in *. simpl. unfold mbind, M_bind.
  destruct (dispatch _ _ _ n s) as [[] s1|] eqn:H1; [|done].
  intros H2. apply dispatch_has_expression in H1. apply IH in H2.
  by rewrite H1, H2.
Qed.

End ReturnsExactly.

(** X12.  A run in which every node is visited after the blocks around it
    returns exactly when every attribute it visits is skipped or has an
    expression container as its value; it throws exactly when it reaches an
    attribute that is not skipped and whose value is missing, a string
    literal or an element. *)
Theorem preorder_run_returns (isDOMComponent : JSXOpeningElement → bool)
    (isCreateElement : node → bool) (configuration : config) (nodes : list node) :
  preorder ∅ nodes = true →
  (∃ s', traverse isDOMComponent isCreateElement configuration nodes initial_state
         = Return tt s')
  ↔ forallb (has_expression isDOMComponent configuration) nodes = true.
Proof.
  intros Hpre. split.
  - intros [s' Hrun]. by eapply traverse_has_expression.
  - intros Hvalues.
    apply (traverse_returns isDOMComponent isCreateElement configuration
             nodes ∅ initial_state Hpre Hvalues).
    intros b Hb. by apply not_elem_of_empty in Hb.
Qed.

Lemma preorder_run_returns_witness :
  preorder ∅ Sample.mixed = true
  ∧ ∃ s', traverse Sample.isDOMComponent Sample.isCreateElement Sample.defaults
            Sample.mixed initial_state = Return tt s'.
Proof.
  split; [reflexivity|].
  by apply (proj2 (preorder_run_returns Sample.isDOMComponent Sample.isCreateElement
                     Sample.defaults Sample.mixed eq_refl)).
Defined.

(** ** The option [ignoreDOMComponents] *)

Section Ignore.

Variable isDOMComponent : JSXOpeningElement → bool.
Variable isCreateElement : node → bool.
Variable configuration : config.

Local Abbreviation heeding := (set_ignore false configuration).
Local Abbreviation ignoring := (set_ignore true configuration).

Lemma getNodeViolationType_set_ignore (value : bool) (e : expr) :
  getNodeViolationType (set_ignore value configuration) e
  = getNodeViolationType configuration e.
Proof.
  induction e as [| | | |test IHt consequent IHc alternate IHa|]; simpl; congruence.
Qed.

Lemma spec_resolve_usage_set_ignore (value : bool) (site : node)
    (anchor : reported_node) (e : expr) (s : state) :
  spec_resolve_usage (set_ignore value configuration) site anchor e s
  = spec_resolve_usage configuration site anchor e s.
Proof.
  destruct e; try done; unfold spec_resolve_usage;
    by rewrite getNodeViolationType_set_ignore.
Qed.

Lemma quieter_grows (k : nat) (sF sF' sT : state) :
  quieter sF sT → grows k sF sF' → quieter sF' sT.
Proof.
  intros [Htable Hsub] [Htable' (added & Hadded & _)]. split; [congruence|].
  rewrite Hadded. by apply sublist_inserts_r.
Qed.

Lemma quieter_emit (anchor : reported_node) (o : option violation) (sF sT : state) :
  quieter sF sT → quieter (emit anchor o sF) (emit anchor o sT).
Proof.
  intros [Htable Hsub]. destruct o; [|done]. split; [done|]. simpl.
  by apply sublist_app.
Qed.

Lemma spec_resolve_usage_quieter (site : node) (anchor : reported_node) (e : expr)
    (sF sF' sT : state) :
  quieter sF sT →
  spec_resolve_usage configuration site anchor e sF = Return tt sF' →
  ∃ sT', spec_resolve_usage configuration site anchor e sT = Return tt sT'
         ∧ quieter sF' sT'.
Proof.
  intros Hq.
  assert (Hdirect : (∀ name, e ≠ Identifier name) →
    spec_resolve_usage configuration site anchor e sF = Return tt sF' →
    ∃ sT', spec_resolve_usage configuration site anchor e sT = Return tt sT'
           ∧ quieter sF' sT').
  { intros Hne. rewrite !spec_resolve_usage_direct by done. intros [= <-].
    eexists. split; [done|]. by apply quieter_emit. }
  destruct e; try (by apply Hdirect).
  simpl. rewrite !findVariableViolation_eq. destruct Hq as [Htable Hsub].
  rewrite Htable. destruct (resolve _ _ _) as [|t|]; intros [= <-].
  - by eexists.
  - eexists. split; [done|]. by apply (quieter_emit _ (Some t)).
Qed.

Lemma forEach_checkProperty_quieter (n : node) (properties : list property)
    (sF sF' sT : state) :
  quieter sF sT →
  array_forEach (checkProperty heeding n) properties sF = Return tt sF' →
  ∃ sT', array_forEach (checkProperty ignoring n) properties sT = Return tt sT'
         ∧ quieter sF' sT'.
Proof.
  revert sF sT. induction properties as [|prop properties IH]; intros sF sT Hq.
  - intros [= <-]. by exists sT.
  - simpl. unfold mbind, M_bind.
    destruct (checkProperty heeding n prop sF) as [[] sF1|] eqn:H1; [|done].
    intros H2.
    assert (∃ sT1, checkProperty ignoring n prop sT = Return tt sT1
                   ∧ quieter sF1 sT1) as (sT1 & -> & Hq1).
    { destruct prop as [key e|argument].
      - rewrite checkProperty_resolves, spec_resolve_usage_set_ignore in *.
        by eapply spec_resolve_usage_quieter.
      - injection H1 as <-. by exists sT. }
    by eapply IH.
Qed.

Lemma dispatch_quieter (n : node) (sF sF' sT : state) :
  quieter sF sT →
  dispatch isDOMComponent isCreateElement heeding n sF = Return tt sF' →
  ∃ sT', dispatch isDOMComponent isCreateElement ignoring n sT = Return tt sT'
         ∧ quieter sF' sT'.
Proof.
  intros Hq. unfold dispatch.
  destruct (fields n) as [|id init parent_kind|parent value|arguments|].
  - intros [= <-]. eexists. split; [done|]. destruct Hq as [Htable Hsub].
    split; [|done]. simpl. by rewrite Htable.
  - rewrite !VariableDeclarator_record_at.
    destruct init as [e|]; [|intros [= <-]; by exists sT].
    destruct (head (getBlockStatementAncestors n)) as [block|];
      [|intros [= <-]; by exists sT].
    case_bool_decide; [|intros [= <-]; by exists sT].
    rewrite !getNodeViolationType_set_ignore.
    destruct (getNodeViolationType configuration e) as [type|];
      [|intros [= <-]; by exists sT].
    simpl. unfold addVariableNameToSet. destruct Hq as [Htable Hsub].
    rewrite Htable.
    destruct (blockVariableNameSets sF !! anc_range0 block) as [blockSets|]; [|done].
    intros [= <-]. eexists. split; [done|]. by split.
  - intros Hrun. destruct (isDOMComponent parent) eqn:Hdom.
    + exists sT. split; [unfold JSXAttribute; simpl; by rewrite Hdom|].
      apply JSXAttribute_grows in Hrun. by eapply quieter_grows.
    + destruct value as [[e| |]|];
        try (by unfold JSXAttribute in Hrun).
      rewrite JSXAttribute_resolves, spec_resolve_usage_set_ignore in *
        by (simpl; by rewrite ?Hdom).
      by eapply spec_resolve_usage_quieter.
  - unfold CallExpression.
    destruct (negb (isCreateElement n) || bool_decide (length arguments = 0%nat));
      [intros [= <-]; by exists sT|].
    destruct arguments as [|first rest]; [intros [= <-]; by exists sT|].
    simpl. destruct rest as [|second rest].
    { intros [= <-]. exists sT. split; [by destruct first|done]. }
    destruct second; try (intros [= <-]; exists sT; split; [by destruct first|done]).
    intros Hrun.
    destruct (is_Literal first) eqn:Hlit.
    + exists sT. split; [by destruct first|].
      apply forEach_checkProperty_grows in Hrun. by eapply quieter_grows.
    + destruct (forEach_checkProperty_quieter n properties sF sF' sT Hq Hrun)
        as (sT' & HT & Hq'). exists sT'. split; [by destruct first|done].
  - intros [= <-]. by exists sT.
Qed.

Lemma traverse_quieter (nodes : list node) (sF sF' sT : state) :
  quieter sF sT →
  traverse isDOMComponent isCreateElement heeding nodes sF = Return tt sF' →
  ∃ sT', traverse isDOMComponent isCreateElement ignoring nodes sT = Return tt sT'
         ∧ quieter sF' sT'.
Proof.
  revert sF sT. induction nodes as [|n nodes IH]; intros sF sT Hq.
  - intros [= <-]. by exists sT.
  - unfold traverse in *. simpl. unfold mbind, M_bind.
    destruct (dispatch _ _ heeding n sF) as [[] sF1|] eqn:H1; [|done].
    intros H2. destruct (dispatch_quieter n sF sF1 sT Hq H1) as (sT1 & -> & Hq1).
    by eapply IH.
Qed.

End Ignore.

(** X13.  Setting [ignoreDOMComponents] only takes reports away.  If a run
    with the option off returns, the run with the option on returns too,
    ends with the same table, and its reports are a part of the reports of
    the first run, in the same order. *)
Theorem ignoreDOMComponents_only_removes_reports
    (isDOMComponent : JSXOpeningElement → bool) (isCreateElement : node → bool)
    (configuration : config) (nodes : list node) (sF : state) :
  traverse isDOMComponent isCreateElement (set_ignore false configuration)
    nodes initial_state = Return tt sF →
  ∃ sT, traverse isDOMComponent isCreateElement (set_ignore true configuration)
          nodes initial_state = Return tt sT
        ∧ blockVariableNameSets sT = blockVariableNameSets sF
        ∧ reports sT `sublist_of` reports sF.
Proof.
  intros Hrun.
  destruct (traverse_quieter isDOMComponent isCreateElement configuration nodes
              initial_state sF initial_state) as (sT & HT & Htable & Hsub);
    [by split|done|].
  by exists sT.
Qed.

Lemma ignoreDOMComponents_only_removes_reports_witness :
  ∃ sF sT,
    Sample.run (set_ignore false Sample.defaults) Sample.mixed = Return tt sF
    ∧ Sample.run (set_ignore true Sample.defaults) Sample.mixed = Return tt sT
    ∧ reports sT `sublist_of` reports sF.
Proof.
  destruct (Sample.run (set_ignore false Sample.defaults) Sample.mixed)
    as [[] sF|] eqn:HF; [|by vm_compute in HF].
  destruct (ignoreDOMComponents_only_removes_reports Sample.isDOMComponent
              Sample.isCreateElement Sample.defaults Sample.mixed sF HF)
    as (sT & HT & _ & Hsub).
  by exists sF, sT.
Defined.
